(** * Diataxis classifier: a shallow embedding of [classifier.py]

    The development follows the script top to bottom: the Python values
    it manipulates, the library calls it relies on ([str] methods,
    [os.path], [json.loads]), then one Rocq function per Python function.
    All definitions come first; the facts proved about them follow. *)

From Stdlib Require Import List ZArith NArith String Ascii Bool Arith Lia.
From Stdlib Require Import DecimalString.
Import ListNotations.

Set Implicit Arguments.
Set Warnings "-register-all".

(* ===================================================================== *)
(** ** Python values *)
(* ===================================================================== *)

Module Py.

(** A Python [str] is a sequence of Unicode code points. *)
Definition str := list N.

(** An ASCII literal of the script, as code points. *)
Definition lit (s : string) : str := map N_of_ascii (list_ascii_of_string s).

Definition len (s : str) : Z := Z.of_nat (List.length s).

Fixpoint str_eqb (a b : str) : bool :=
  match a, b with
  | [], [] => true
  | c :: a', d :: b' => N.eqb c d && str_eqb a' b'
  | _, _ => false
  end.

(** [s.startswith(p)] *)
Fixpoint startswith (p s : str) : bool :=
  match p, s with
  | [], _ => true
  | c :: p', d :: s' => N.eqb c d && startswith p' s'
  | _ :: _, [] => false
  end.

(** [p in s] *)
Fixpoint contains (p s : str) : bool :=
  startswith p s ||
  match s with
  | [] => false
  | _ :: s' => contains p s'
  end.

(** [s.find(c)] for a one-character needle: lowest index, or [-1]. *)
Fixpoint find_from (c : N) (s : str) (i : Z) : Z :=
  match s with
  | [] => (-1)%Z
  | d :: s' => if N.eqb d c then i else find_from c s' (i + 1)%Z
  end.

Definition find (c : N) (s : str) : Z := find_from c s 0%Z.

(** [s.rfind(c)] for a one-character needle: highest index, or [-1]. *)
Fixpoint rfind_from (c : N) (s : str) (i last : Z) : Z :=
  match s with
  | [] => last
  | d :: s' => rfind_from c s' (i + 1)%Z (if N.eqb d c then i else last)
  end.

Definition rfind (c : N) (s : str) : Z := rfind_from c s 0%Z (-1)%Z.

(** Slice bounds: a negative index counts from the end, and every index is
    clamped to [0 .. len]. *)
Definition clamp (n i : Z) : Z :=
  (if i <? 0 then Z.max 0 (i + n) else Z.min i n)%Z.

(** [s[lo:hi]], an omitted bound being [None]. *)
Definition slice (s : str) (lo hi : option Z) : str :=
  let n := len s in
  let a := match lo with None => 0%Z | Some i => clamp n i end in
  let b := match hi with None => n | Some j => clamp n j end in
  firstn (Z.to_nat (b - a)) (skipn (Z.to_nat a) s).

(** [s.split(c)], which is also [re.split(c, s)] for a pattern made of
    one literal character. The result is never empty. *)
Fixpoint split_on (c : N) (s : str) : list str :=
  match s with
  | [] => [[]]
  | d :: s' =>
      if N.eqb d c then [] :: split_on c s'
      else match split_on c s' with
           | h :: t => (d :: h) :: t
           | [] => [[d]]
           end
  end.

(** The values the script handles: what [yaml.load] and [json.loads]
    build, plus [None] and plain strings stored in the results. A float is
    kept as the text it was read from. A [dict] is its list of items in
    insertion order; keys are strings. *)
Inductive value : Type :=
| VNone
| VBool (b : bool)
| VInt (z : Z)
| VFloat (text : str)
| VStr (s : str)
| VList (l : list value)
| VDict (items : list (str * value)).

(** [d.get(k)] *)
Fixpoint dict_get {A} (k : str) (d : list (str * A)) : option A :=
  match d with
  | [] => None
  | (k', v) :: d' => if str_eqb k' k then Some v else dict_get k d'
  end.

(** [d[k] = v]: an existing key keeps its place, a new one goes last. *)
Fixpoint dict_set {A} (k : str) (v : A) (d : list (str * A)) : list (str * A) :=
  match d with
  | [] => [(k, v)]
  | (k', v') :: d' =>
      if str_eqb k' k then (k', v) :: d' else (k', v') :: dict_set k v d'
  end.

(** [dict(pairs)] *)
Definition dict_of_pairs {A} (pairs : list (str * A)) : list (str * A) :=
  fold_left (fun d kv => dict_set (fst kv) (snd kv) d) pairs [].

Definition keys {A} (d : list (str * A)) : list str := map fst d.


(** Exceptions: the class and [str(e)]. Only subclasses of [Exception]
    are modelled; they are the ones the script's handlers catch. *)
Inductive exn_class :=
| ValueError
| FileNotFoundError
| AttributeError
| TypeError
| JSONDecodeError
| OtherError (name : str).

Record exn := Exn { exn_cls : exn_class; exn_msg : str }.

(** The outcome of a call: a returned value or a raised exception. *)
Inductive result (A : Type) :=
| Return (a : A)
| Raise (e : exn).
Arguments Return {A} a.
Arguments Raise {A} e.

Definition is_dict (v : value) : Prop := exists items, v = VDict items.

(** Decimal rendering of a natural number, as in [str(n)]. *)
Definition dec (n : nat) : str := lit (NilZero.string_of_uint (Nat.to_uint n)).

(** Name of a value's type, as it appears in error messages. *)
Definition type_name (v : value) : str :=
  match v with
  | VNone => lit "NoneType"
  | VBool _ => lit "bool"
  | VInt _ => lit "int"
  | VFloat _ => lit "float"
  | VStr _ => lit "str"
  | VList _ => lit "list"
  | VDict _ => lit "dict"
  end.

End Py.
Import Py.

(* ===================================================================== *)
(** ** [json.loads]

    A model of the standard decoder with its default settings, following
    the scanner CPython runs: strict strings, [NaN] and the infinities
    accepted, integers of at most 4300 digits. Positions are indices into
    the document; they only serve the error message. The interpreter's
    recursion limit is not modelled: nesting is bounded by the length of
    the document only. *)
(* ===================================================================== *)

Module Json.

Inductive scan (A : Type) :=
| Scanned (a : A) (rest : str) (idx : nat)
| StopIteration (idx : nat)
| DecodeError (msg : string) (pos : nat)
| IntTooLong (digits : nat)
| Exhausted.
Arguments Scanned {A} a rest idx.
Arguments StopIteration {A} idx.
Arguments DecodeError {A} msg pos.
Arguments IntTooLong {A} digits.
Arguments Exhausted {A}.

Definition scan_bind {A B} (x : scan A) (k : A -> str -> nat -> scan B) : scan B :=
  match x with
  | Scanned a rest idx => k a rest idx
  | StopIteration idx => StopIteration idx
  | DecodeError msg pos => DecodeError msg pos
  | IntTooLong n => IntTooLong n
  | Exhausted => Exhausted
  end.

Definition is_ws (c : N) : bool :=
  N.eqb c 32 || N.eqb c 9 || N.eqb c 10 || N.eqb c 13.

Fixpoint skip_ws (s : str) (idx : nat) : str * nat :=
  match s with
  | c :: r => if is_ws c then skip_ws r (S idx) else (s, idx)
  | [] => (s, idx)
  end.

Definition is_digit (c : N) : bool := N.leb 48 c && N.leb c 57.

Definition hex_digit (c : N) : option N :=
  if N.leb 48 c && N.leb c 57 then Some (c - 48)%N
  else if N.leb 97 c && N.leb c 102 then Some (c - 87)%N
  else if N.leb 65 c && N.leb c 70 then Some (c - 55)%N
  else None.

Definition hex4 (a b c d : N) : option N :=
  match hex_digit a, hex_digit b, hex_digit c, hex_digit d with
  | Some x, Some y, Some z, Some w => Some (((x * 16 + y) * 16 + z) * 16 + w)%N
  | _, _, _, _ => None
  end.

Definition is_high_surrogate (u : N) : bool := N.leb 55296 u && N.leb u 56319.
Definition is_low_surrogate (u : N) : bool := N.leb 56320 u && N.leb u 57343.

Definition join_surrogates (hi lo : N) : N :=
  (65536 + N.lor (N.shiftl (hi - 55296) 10) (lo - 56320))%N.

(** The character a one-letter escape stands for. *)
Definition unescape (c : N) : option N :=
  if N.eqb c 34 then Some 34%N
  else if N.eqb c 92 then Some 92%N
  else if N.eqb c 47 then Some 47%N
  else if N.eqb c 98 then Some 8%N
  else if N.eqb c 102 then Some 12%N
  else if N.eqb c 110 then Some 10%N
  else if N.eqb c 114 then Some 13%N
  else if N.eqb c 116 then Some 9%N
  else None.

(** The body of a string, after its opening quote at [begin]. [idx] is
    the index of the head of [s]; [acc] holds the characters read so far,
    last first. *)
Fixpoint scanstring (begin : nat) (s : str) (idx : nat) (acc : str) {struct s}
  : scan str :=
  match s with
  | [] => DecodeError "Unterminated string starting at" begin
  | c :: r =>
      if N.eqb c 34 then Scanned (rev acc) r (S idx)
      else if N.eqb c 92 then
        match r with
        | [] => DecodeError "Unterminated string starting at" begin
        | e :: r1 =>
            if N.eqb e 117 then
              match r1 with
              | h1 :: h2 :: h3 :: h4 :: ((_ :: _) as r5) =>
                  match hex4 h1 h2 h3 h4 with
                  | None => DecodeError "Invalid \uXXXX escape" (S idx)
                  | Some u =>
                      match r5 with
                      | b :: v :: g1 :: g2 :: g3 :: g4 :: ((_ :: _) as r11) =>
                          if is_high_surrogate u && N.eqb b 92 && N.eqb v 117 then
                            match hex4 g1 g2 g3 g4 with
                            | None => DecodeError "Invalid \uXXXX escape" (idx + 7)
                            | Some u2 =>
                                if is_low_surrogate u2
                                then scanstring begin r11 (idx + 12)
                                       (join_surrogates u u2 :: acc)
                                else scanstring begin r5 (idx + 6) (u :: acc)
                            end
                          else scanstring begin r5 (idx + 6) (u :: acc)
                      | _ => scanstring begin r5 (idx + 6) (u :: acc)
                      end
                  end
              | _ => DecodeError "Invalid \uXXXX escape" (S idx)
              end
            else
              match unescape e with
              | Some ch => scanstring begin r1 (idx + 2) (ch :: acc)
              | None => DecodeError "Invalid \escape" idx
              end
        end
      else if N.leb c 31 then DecodeError "Invalid control character at" idx
      else scanstring begin r (S idx) (c :: acc)
  end.

(** The longest run of ASCII digits at the head of [s], and what follows. *)
Fixpoint span_digits (s : str) : str * str :=
  match s with
  | c :: r => if is_digit c then let (ds, r') := span_digits r in (c :: ds, r')
              else ([], s)
  | [] => ([], [])
  end.

(** Value of a run of decimal digits. *)
Definition digits_value (ds : str) : Z :=
  fold_left (fun acc c => (acc * 10 + Z.of_N (c - 48))%Z) ds 0%Z.

Definition int_max_str_digits : nat := 4300.

(** The fraction of a number: a dot and at least one digit. *)
Definition scan_frac (s : str) : str * str :=
  match s with
  | dot :: d :: r =>
      if N.eqb dot 46 && is_digit d
      then let (ds, r') := span_digits r in (dot :: d :: ds, r')
      else ([], s)
  | _ => ([], s)
  end.

(** The exponent of a number: [e] or [E], an optional sign and at least
    one digit. *)
Definition scan_exp (s : str) : str * str :=
  match s with
  | e :: r =>
      if N.eqb e 101 || N.eqb e 69 then
        let '(sign, r1) :=
          match r with
          | sg :: r' => if N.eqb sg 45 || N.eqb sg 43 then ([sg], r') else ([], r)
          | [] => ([], r)
          end in
        match span_digits r1 with
        | ([], _) => ([], s)
        | (ds, r2) => (e :: sign ++ ds, r2)
        end
      else ([], s)
  | [] => ([], s)
  end.

(** A number starting at [idx]; [StopIteration] when there is none. *)
Definition match_number (s : str) (idx : nat) : scan value :=
  let '(neg, s1) :=
    match s with
    | c :: r => if N.eqb c 45 then (true, r) else (false, s)
    | [] => (false, s)
    end in
  match s1 with
  | [] => StopIteration idx
  | d :: r =>
      let int_part :=
        if N.leb 49 d && N.leb d 57 then
          let (ds, r') := span_digits r in Some (d :: ds, r')
        else if N.eqb d 48 then Some ([d], r)
        else None in
      match int_part with
      | None => StopIteration idx
      | Some (ds, r1) =>
          let (frac, r2) := scan_frac r1 in
          let (ex, r3) := scan_exp r2 in
          let text := (if neg then [45%N] else []) ++ ds ++ frac ++ ex in
          let idx' := idx + List.length text in
          match frac, ex with
          | [], [] =>
              if Nat.ltb int_max_str_digits (List.length ds)
              then IntTooLong (List.length ds)
              else Scanned (VInt (if neg then - digits_value ds else digits_value ds)%Z)
                     r3 idx'
          | _, _ => Scanned (VFloat text) r3 idx'
          end
      end
  end.

Section Containers.

(** The scanner for one value, handed to the container parsers as the
    decoder hands [scan_once] to them. *)
Variable scan_once : str -> nat -> scan value.

(** The elements of an array, from the first one on. [fuel] bounds the
    number of elements. *)
Fixpoint array_loop (fuel : nat) (s : str) (idx : nat) (acc : list value)
  : scan value :=
  match fuel with
  | O => Exhausted
  | S fuel' =>
      scan_bind (scan_once s idx) (fun v r j =>
        let (r1, j1) := skip_ws r j in
        match r1 with
        | c :: r2 =>
            if N.eqb c 93 then Scanned (VList (rev (v :: acc))) r2 (S j1)
            else if N.eqb c 44 then
              let (r3, j3) := skip_ws r2 (S j1) in
              array_loop fuel' r3 j3 (v :: acc)
            else DecodeError "Expecting ',' delimiter" j1
        | [] => DecodeError "Expecting ',' delimiter" j1
        end)
  end.

(** An array, after its opening bracket. *)
Definition parse_array (s : str) (idx : nat) : scan value :=
  let (s1, i1) := skip_ws s idx in
  match s1 with
  | c :: r =>
      if N.eqb c 93 then Scanned (VList []) r (S i1)
      else array_loop (S (List.length s1)) s1 i1 []
  | [] => array_loop (S (List.length s1)) s1 i1 []
  end.

(** The members of an object, from the first key on. *)
Fixpoint object_loop (fuel : nat) (s : str) (idx : nat)
    (acc : list (str * value)) : scan value :=
  match fuel with
  | O => Exhausted
  | S fuel' =>
      match s with
      | q :: r =>
          if N.eqb q 34 then
            scan_bind (scanstring idx r (S idx) []) (fun key r1 j1 =>
              let (r2, j2) := skip_ws r1 j1 in
              match r2 with
              | colon :: r3 =>
                  if N.eqb colon 58 then
                    let (r4, j4) := skip_ws r3 (S j2) in
                    scan_bind (scan_once r4 j4) (fun v r5 j5 =>
                      let (r6, j6) := skip_ws r5 j5 in
                      match r6 with
                      | c :: r7 =>
                          if N.eqb c 125
                          then Scanned (VDict (dict_set key v acc)) r7 (S j6)
                          else if N.eqb c 44 then
                            let (r8, j8) := skip_ws r7 (S j6) in
                            object_loop fuel' r8 j8 (dict_set key v acc)
                          else DecodeError "Expecting ',' delimiter" j6
                      | [] => DecodeError "Expecting ',' delimiter" j6
                      end)
                  else DecodeError "Expecting ':' delimiter" j2
              | [] => DecodeError "Expecting ':' delimiter" j2
              end)
          else DecodeError "Expecting property name enclosed in double quotes" idx
      | [] => DecodeError "Expecting property name enclosed in double quotes" idx
      end
  end.

(** An object, after its opening brace. *)
Definition parse_object (s : str) (idx : nat) : scan value :=
  let (s1, i1) := skip_ws s idx in
  match s1 with
  | c :: r =>
      if N.eqb c 125 then Scanned (VDict []) r (S i1)
      else object_loop (S (List.length s1)) s1 i1 []
  | [] => object_loop (S (List.length s1)) s1 i1 []
  end.

End Containers.

(** One JSON value starting at [idx]. [depth] bounds the nesting of
    containers. *)
Fixpoint scan_once (depth : nat) (s : str) (idx : nat) : scan value :=
  match s with
  | [] => StopIteration idx
  | c :: r =>
      if N.eqb c 34 then
        scan_bind (scanstring idx r (S idx) []) (fun k r' j => Scanned (VStr k) r' j)
      else if N.eqb c 123 then
        match depth with
        | O => Exhausted
        | S d => parse_object (scan_once d) r (S idx)
        end
      else if N.eqb c 91 then
        match depth with
        | O => Exhausted
        | S d => parse_array (scan_once d) r (S idx)
        end
      else if startswith (lit "null") s then Scanned VNone (skipn 4 s) (idx + 4)
      else if startswith (lit "true") s then Scanned (VBool true) (skipn 4 s) (idx + 4)
      else if startswith (lit "false") s then Scanned (VBool false) (skipn 5 s) (idx + 5)
      else if startswith (lit "NaN") s then Scanned (VFloat (lit "NaN")) (skipn 3 s) (idx + 3)
      else if startswith (lit "Infinity") s
      then Scanned (VFloat (lit "Infinity")) (skipn 8 s) (idx + 8)
      else if startswith (lit "-Infinity") s
      then Scanned (VFloat (lit "-Infinity")) (skipn 9 s) (idx + 9)
      else match_number s idx
  end.

(** What the container parsers need from the scanner they are given:
    on inputs of length at most [bound] it does not run out of fuel and
    takes at least one character. *)
Definition consumes (f : str -> nat -> scan value) (bound : nat) : Prop :=
  forall s i, List.length s <= bound ->
    f s i <> Exhausted
    /\ forall v r j, f s i = Scanned v r j -> List.length r < List.length s.

(** [str(e)] of a [JSONDecodeError]: the message and where it applies. *)
Definition errmsg (msg : string) (doc : str) (pos : nat) : str :=
  let before := firstn pos doc in
  let lineno := S (count_occ N.eq_dec before 10%N) in
  let colno :=
    match rfind 10 before with
    | Z.neg _ => S pos
    | last => pos - Z.to_nat last
    end in
  lit msg ++ lit ": line " ++ dec lineno ++ lit " column " ++ dec colno
    ++ lit " (char " ++ dec pos ++ lit ")".

Definition decode_error (msg : string) (doc : str) (pos : nat) : exn :=
  Exn JSONDecodeError (errmsg msg doc pos).

Definition int_too_long (digits : nat) : exn :=
  Exn ValueError
    (lit "Exceeds the limit (4300 digits) for integer string conversion: value has "
     ++ dec digits
     ++ lit " digits; use sys.set_int_max_str_digits() to increase the limit").

(** The scan of a whole document. The nesting budget is the length of the
    document, which no document exhausts. *)
Definition scan_document (doc : str) : scan value :=
  let (s, i) := skip_ws doc 0 in
  scan_once (List.length doc) s i.

(** [json.loads(doc)] for a [str] document. *)
Definition loads (doc : str) : result value :=
  if startswith [65279%N] doc
  then Raise (decode_error "Unexpected UTF-8 BOM (decode using utf-8-sig)" doc 0)
  else
    match scan_document doc with
    | Scanned v r j =>
        match skip_ws r j with
        | ([], _) => Return v
        | (_ :: _, j') => Raise (decode_error "Extra data" doc j')
        end
    | StopIteration k => Raise (decode_error "Expecting value" doc k)
    | DecodeError msg pos => Raise (decode_error msg doc pos)
    | IntTooLong n => Raise (int_too_long n)
    | Exhausted =>
        Raise (Exn (OtherError (lit "RecursionError"))
                 (lit "maximum recursion depth exceeded"))
    end.

End Json.

(* ===================================================================== *)
(** ** Navigation resolver *)
(* ===================================================================== *)

Module Nav.

Definition is_external (v : str) : bool :=
  startswith (lit "http://") v || startswith (lit "https://") v.

(** [re.split(r"#", value)[0]] *)
Definition strip_fragment (v : str) : str := hd [] (split_on 35 v).

(** The inner function [extract_files] of [load_mkdocs_nav]. The list
    returned is what the call appends to [nav_files]. In the loop over a
    mapping's items, [return] leaves the call: the items after an external
    link are not visited. *)
Fixpoint extract_files (item : value) : list str :=
  match item with
  | VDict items =>
      (fix over_items (its : list (str * value)) : list str :=
         match its with
         | [] => []
         | (_, v) :: rest =>
             match v with
             | VList vs =>
                 (fix over_list (l : list value) : list str :=
                    match l with
                    | [] => []
                    | x :: l' => extract_files x ++ over_list l'
                    end) vs ++ over_items rest
             | VStr s =>
                 if is_external s then []
                 else strip_fragment s :: over_items rest
             | _ => over_items rest
             end
         end) items
  | VList vs =>
      (fix over_list (l : list value) : list str :=
         match l with
         | [] => []
         | x :: l' => extract_files x ++ over_list l'
         end) vs
  | _ => []
  end.

(** The flattening the specification describes, written from its words:
    every value of a mapping is visited in order, a sequence is entered,
    a string is accepted unless it is an external link, and an external
    link is discarded without ending the visit. *)
Fixpoint accepted_leaves (item : value) : list str :=
  match item with
  | VDict items =>
      (fix over_items (its : list (str * value)) : list str :=
         match its with
         | [] => []
         | (_, v) :: rest =>
             match v with
             | VList vs =>
                 (fix over_list (l : list value) : list str :=
                    match l with
                    | [] => []
                    | x :: l' => accepted_leaves x ++ over_list l'
                    end) vs ++ over_items rest
             | VStr s =>
                 if is_external s then over_items rest
                 else strip_fragment s :: over_items rest
             | _ => over_items rest
             end
         end) items
  | VList vs =>
      (fix over_list (l : list value) : list str :=
         match l with
         | [] => []
         | x :: l' => accepted_leaves x ++ over_list l'
         end) vs
  | _ => []
  end.

(** Navigations in which an external link, where there is one, is the
    last item of its mapping. *)
Fixpoint links_last (item : value) : bool :=
  match item with
  | VDict items =>
      (fix over_items (its : list (str * value)) : bool :=
         match its with
         | [] => true
         | (_, v) :: rest =>
             match v with
             | VList vs =>
                 (fix over_list (l : list value) : bool :=
                    match l with
                    | [] => true
                    | x :: l' => links_last x && over_list l'
                    end) vs && over_items rest
             | VStr s =>
                 if is_external s
                 then match rest with [] => true | _ :: _ => false end
                 else over_items rest
             | _ => over_items rest
             end
         end) items
  | VList vs =>
      (fix over_list (l : list value) : bool :=
         match l with
         | [] => true
         | x :: l' => links_last x && over_list l'
         end) vs
  | _ => true
  end.

End Nav.

(* ===================================================================== *)
(** ** [os.path] on a POSIX system *)
(* ===================================================================== *)

Module PosixPath.

Definition sep : N := 47.

Definition endswith_sep (p : str) : bool :=
  match rev p with
  | c :: _ => N.eqb c sep
  | [] => false
  end.

(** [os.path.join(a, b)] *)
Definition join (a b : str) : str :=
  if startswith [sep] b then b
  else if match a with [] => true | _ => endswith_sep a end then a ++ b
  else a ++ [sep] ++ b.

(** [os.path.join(a, b, c)] *)
Definition join3 (a b c : str) : str := join (join a b) c.

(** [p.rstrip("/")] *)
Definition rstrip_sep (p : str) : str :=
  rev ((fix drop (l : str) : str :=
          match l with
          | c :: l' => if N.eqb c sep then drop l' else l
          | [] => []
          end) (rev p)).

(** [os.path.dirname(p)] *)
Definition dirname (p : str) : str :=
  let i := (rfind sep p + 1)%Z in
  let head := slice p None (Some i) in
  if negb (forallb (N.eqb sep) head) then rstrip_sep head else head.

End PosixPath.

(* ===================================================================== *)
(** ** The world outside the script *)
(* ===================================================================== *)

(** What the file system, the YAML loader and the two providers answer.
    The file system does not change during a run; a provider's answer may
    depend on how many requests were sent before. *)
Record env := Env {
  (** [os.path.exists(p)] *)
  path_exists : str -> bool;
  (** [open(p, "r", encoding="utf-8")] followed by [f.read()] *)
  read_text : str -> result str;
  (** [open(p, "r", encoding="utf-8")] followed by
      [yaml.load(f, Loader=CustomLoader)] *)
  yaml_load : str -> result value;
  (** [openai.ChatCompletion.create(...)] and the extraction of
      [response["choices"][0]["message"]["content"]], for request number
      [n] of the run, given the model and the prompt *)
  openai_chat : nat -> str -> str -> result (option str);
  (** [Client(host=...).chat(...)] and [response.message.content], for
      request number [n], given the host, the model and the prompt *)
  ollama_chat : nat -> str -> str -> str -> result (option str)
}.

(** An argument of [time.sleep]: an [int] of the script, or the [float]
    read from a text. *)
Inductive duration :=
| Seconds (n : Z)
| FloatSeconds (text : str).

(** What a run changes: the number of requests sent and the pauses taken,
    oldest first. Console output is narration and is left out. *)
Record world := World {
  requests : nat;
  slept : list duration
}.

(** Computations that read and change the world and may raise. *)
Definition M (A : Type) : Type := world -> result A * world.

Definition ret {A} (a : A) : M A := fun w => (Return a, w).

Definition bind {A B} (m : M A) (k : A -> M B) : M B :=
  fun w =>
    match m w with
    | (Return a, w') => k a w'
    | (Raise e, w') => (Raise e, w')
    end.

(** A pure call that may raise. *)
Definition lift {A} (r : result A) : M A := fun w => (r, w).

(** [try: body  except Exception as e: handler(e)] *)
Definition try_except {A} (body : M A) (handler : exn -> M A) : M A :=
  fun w =>
    match body w with
    | (Return a, w') => (Return a, w')
    | (Raise e, w') => handler e w'
    end.

(** The same for a body without effects. *)
Definition try_pure {A} (body : result A) (handler : exn -> result A) : result A :=
  match body with
  | Return a => Return a
  | Raise e => handler e
  end.

Definition result_bind {A B} (r : result A) (k : A -> result B) : result B :=
  match r with
  | Return a => k a
  | Raise e => Raise e
  end.

Declare Scope py_scope.
Delimit Scope py_scope with py.
Notation "x <- m ;; k" := (bind m (fun x => k))
  (at level 61, m at next level, right associativity) : py_scope.
Notation "m ;; k" := (bind m (fun _ => k))
  (at level 61, right associativity) : py_scope.
Notation "x <-! r ;; k" := (result_bind r (fun x => k))
  (at level 61, r at next level, right associativity) : py_scope.

(** [time.sleep(d)] *)
Definition sleep (d : duration) : M unit :=
  fun w => (Return tt, World (requests w) (slept w ++ [d])).

(* ===================================================================== *)
(** ** [load_mkdocs_nav] *)
(* ===================================================================== *)

Module Config.

Definition not_found (path : str) : exn :=
  Exn FileNotFoundError (lit "Could not find " ++ path).

(** [config.get(key, default)]; a configuration that is no mapping has
    no [get]. *)
Definition get (config : value) (key : str) (default : value) : result value :=
  match config with
  | VDict items =>
      Return (match dict_get key items with Some v => v | None => default end)
  | other =>
      Raise (Exn AttributeError
               (lit "'" ++ type_name other ++ lit "' object has no attribute 'get'"))
  end.

Section WithEnv.
Variable E : env.
Local Open Scope py_scope.

Definition load_mkdocs_nav (mkdocs_config_path : str) : result (list str) :=
  if negb (path_exists E mkdocs_config_path)
  then Raise (not_found mkdocs_config_path)
  else
    config <-! yaml_load E mkdocs_config_path ;;
    nav <-! get config (lit "nav") (VList []) ;;
    Return (Nav.extract_files nav).

End WithEnv.
End Config.

(* ===================================================================== *)
(** ** Content locator *)
(* ===================================================================== *)

Module Locator.

Definition not_found (file_path : str) : exn :=
  Exn FileNotFoundError
    (lit "File '" ++ file_path ++ lit "' not found in expected locations.").

(** [os.path.join] accepts only strings. *)
Definition as_path (v : value) : result str :=
  match v with
  | VStr s => Return s
  | other =>
      Raise (Exn TypeError
               (lit "join() argument must be str, bytes, or os.PathLike object, not '"
                ++ type_name other ++ lit "'"))
  end.

Section WithEnv.
Variable E : env.
Local Open Scope py_scope.

Definition read_file_content (file_path config_path clone_dir : str) : result str :=
  config <-! yaml_load E config_path ;;
  docs_dir <-! Config.get config (lit "docs_dir") (VStr (lit "docs")) ;;
  let base := PosixPath.dirname config_path in
  docs_dir <-! as_path docs_dir ;;
  let candidate := PosixPath.join3 base docs_dir file_path in
  if path_exists E candidate then read_text E candidate
  else
    let candidate := PosixPath.join base file_path in
    if path_exists E candidate then read_text E candidate
    else
      let candidate := PosixPath.join clone_dir file_path in
      if path_exists E candidate then read_text E candidate
      else Raise (not_found file_path).

End WithEnv.
End Locator.

(* ===================================================================== *)
(** ** Classification dispatcher *)
(* ===================================================================== *)

Module Dispatcher.

(** [content[:max_chars] if len(content) > max_chars else content] *)
Definition truncate_content (content : str) (max_chars : Z) : str :=
  if (len content >? max_chars)%Z
  then slice content None (Some max_chars)
  else content.

Definition retry_delay : Z := 2.
Definition max_retries : nat := 5.

(** A character of the class [[\d.]]. Decimal digits outside ASCII are
    not modelled. *)
Definition in_wait_class (c : N) : bool := Json.is_digit c || N.eqb c 46.

Fixpoint span_wait (s : str) : str * str :=
  match s with
  | c :: r => if in_wait_class c then let (g, r') := span_wait r in (c :: g, r')
              else ([], s)
  | [] => ([], [])
  end.

(** A match of [Please try again in ([\d.]+)s] at the head of [s]: the
    group is the longest run of the class, which must be followed by
    [s]. *)
Definition match_wait_here (s : str) : option str :=
  let prefix := lit "Please try again in " in
  if startswith prefix s then
    match span_wait (skipn (List.length prefix) s) with
    | ((_ :: _) as g, c :: _) => if N.eqb c 115 then Some g else None
    | _ => None
    end
  else None.

(** [re.search(r"Please try again in ([\d.]+)s", error_str)], giving
    [m.group(1)] of the leftmost match. *)
Fixpoint search_wait (error_str : str) : option str :=
  match match_wait_here error_str with
  | Some g => Some g
  | None =>
      match error_str with
      | [] => None
      | _ :: rest => search_wait rest
      end
  end.

(** [float(text)] for a text of digits and dots: it needs a digit and
    takes at most one dot. *)
Definition float_of (text : str) : result duration :=
  if existsb Json.is_digit text
     && Nat.leb (count_occ N.eq_dec text 46%N) 1
  then Return (FloatSeconds text)
  else Raise (Exn ValueError
                (lit "could not convert string to float: '" ++ text ++ lit "'")).

(** [float(m.group(1)) if m else retry_delay] *)
Definition wait_time_of (error_str : str) : result duration :=
  match search_wait error_str with
  | Some g => float_of g
  | None => Return (Seconds retry_delay)
  end.

(** How one round of the [while] loop ends. *)
Inductive round :=
| Returned (raw : option str)
| Retry.

(** The provider selected on the command line. *)
Inductive provider := OpenAI | Ollama.

Section WithEnv.
Variable E : env.
Local Open Scope py_scope.

(** Request number [requests w] goes out. *)
Definition openai_request (model prompt : str) : M (option str) :=
  fun w => (openai_chat E (requests w) model prompt,
            World (S (requests w)) (slept w)).

Definition ollama_request (host model prompt : str) : M (option str) :=
  fun w => (ollama_chat E (requests w) host model prompt,
            World (S (requests w)) (slept w)).

(** The body of the [while] loop of [send_to_openai]. *)
Definition openai_round (prompt model : str) : M round :=
  try_except
    (content <- openai_request model prompt ;;
     ret (Returned content))
    (fun e =>
       let error_str := exn_msg e in
       if contains (lit "Rate limit reached") error_str then
         wait_time <- lift (wait_time_of error_str) ;;
         sleep wait_time ;;
         ret Retry
       else ret (Returned None)).

(** [while retries < max_retries], with [remaining] standing for
    [max_retries - retries]. *)
Fixpoint openai_loop (remaining : nat) (prompt model : str) : M (option str) :=
  match remaining with
  | O => ret None
  | S remaining' =>
      r <- openai_round prompt model ;;
      match r with
      | Returned raw => ret raw
      | Retry => openai_loop remaining' prompt model
      end
  end.

Definition send_to_openai (prompt model : str) : M (option str) :=
  openai_loop max_retries prompt model.

Definition send_to_ollama (prompt model ollama_host : str) : M (option str) :=
  try_except (ollama_request ollama_host model prompt) (fun _ => ret None).

Definition send_request (prompt : str) (p : provider) (model ollama_host : str)
  : M (option str) :=
  match p with
  | Ollama => send_to_ollama prompt model ollama_host
  | OpenAI => send_to_openai prompt model
  end.

End WithEnv.
End Dispatcher.

(* ===================================================================== *)
(** ** Response interpreter *)
(* ===================================================================== *)

Module Interpreter.

Definition no_json_object : exn :=
  Exn ValueError (lit "No valid JSON object found.").

(** The [try] block of [parse_json_response]. *)
Definition parse_json_body (response_text : str) : result value :=
  let start := find 123 response_text in
  let end_ := (rfind 125 response_text + 1)%Z in
  if (start =? -1)%Z || (end_ =? -1)%Z then Raise no_json_object
  else
    let json_text := slice response_text (Some start) (Some end_) in
    Json.loads json_text.

(** The text handed to the decoder when the guard lets it through:
    [response_text[start:end]]. *)
Definition json_text (response_text : str) : str :=
  slice response_text (Some (find 123 response_text))
        (Some (rfind 125 response_text + 1)%Z).

(** The dictionary built by the [except] block. *)
Definition error_dict (e : exn) (response_text : str) : value :=
  VDict [ (lit "error", VStr (lit "Error parsing JSON: " ++ exn_msg e));
          (lit "raw_response", VStr response_text) ].

Definition parse_json_response (response_text : str) : result value :=
  try_pure (parse_json_body response_text)
           (fun e => Return (error_dict e response_text)).

(** The keys the prompt asks the model for. *)
Definition required_keys : list str :=
  [lit "dominant"; lit "explanation"; lit "tutorial"; lit "how_to"; lit "reference"].

Definition has_required_keys (v : value) : bool :=
  match v with
  | VDict items =>
      forallb (fun k => match dict_get k items with Some _ => true | None => false end)
              required_keys
  | _ => false
  end.

(** The shape of a parse failure: a dictionary holding [raw_response]. *)
Definition is_parse_failure (raw : str) (v : value) : Prop :=
  exists msg, v = VDict [ (lit "error", VStr msg); (lit "raw_response", VStr raw) ].

End Interpreter.

(* ===================================================================== *)
(** ** Pipeline coordinator *)
(* ===================================================================== *)

Module Coordinator.

Definition nl : str := [10%N].

Definition prompt_head : str :=
  lit "The following documentation content is provided from a MkDocs file. "
  ++ lit "Please analyze the content and classify it into the Di" ++ [225%N]
  ++ lit "taxis documentation framework quadrants:" ++ nl
  ++ lit "    - Explanation" ++ nl
  ++ lit "    - Tutorial" ++ nl
  ++ lit "    - How-To" ++ nl
  ++ lit "    - Reference" ++ nl ++ nl
  ++ lit "For each quadrant, provide a percentage fit as an integer between 0 and 100 (without the '%' sign) "
  ++ lit "that indicates how much the content aligns with that quadrant. Also, indicate the most dominant quadrant. "
  ++ lit "Return the output in JSON format with keys 'dominant', 'explanation', 'tutorial', 'how_to', and 'reference'."
  ++ lit "In the returned output in JSON, ensure the values of 'dominant' is only one of the following, case-sensitive values: 'explanation', 'tutorial', 'how_to', and 'reference'."
  ++ nl ++ nl
  ++ lit "Here is the documentation content:" ++ nl ++ nl.

Definition prompt_tail : str :=
  nl ++ nl ++ lit "Ensure your response is a valid JSON object.".

(** [CUSTOM_PROMPT.format(content=content)] *)
Definition format_prompt (content : str) : str :=
  prompt_head ++ content ++ prompt_tail.

(** The command-line arguments and the two paths [main] derives. *)
Record args := Args {
  config_path : str;
  clone_dir : str;
  arg_provider : Dispatcher.provider;
  arg_model : str;
  ollama_host : str;
  max_chars : Z
}.

Definition error_entry (file : str) (e : exn) : value :=
  VStr (lit "Error processing file " ++ file ++ lit ": " ++ exn_msg e).

Section WithEnv.
Variable E : env.
Variable a : args.
Local Open Scope py_scope.

(** The [try] block inside the [for] loop of [main]: the value it
    assigns to [results[file]]. [if raw_response:] holds for a string that
    is not empty. *)
Definition process_body (file : str) : M value :=
  content <- lift (Locator.read_file_content E file (config_path a) (clone_dir a)) ;;
  let content := Dispatcher.truncate_content content (max_chars a) in
  let prompt := format_prompt content in
  raw_response <- Dispatcher.send_request E prompt (arg_provider a)
                    (arg_model a) (ollama_host a) ;;
  match raw_response with
  | Some ((_ :: _) as raw_response) =>
      parsed <- lift (Interpreter.parse_json_response raw_response) ;;
      ret parsed
  | _ => ret VNone
  end.

(** One round of the [for] loop, up to the assignment to [results[file]]:
    the [try] block, or the message its [except] block builds. *)
Definition process_file (file : str) : M value :=
  try_except (process_body file) (fun e => ret (error_entry file e)).

(** The [for] loop of [main]. *)
Fixpoint main_loop (nav_files : list str) (results : list (str * value))
  : M (list (str * value)) :=
  match nav_files with
  | [] => ret results
  | file :: rest =>
      entry <- process_file file ;;
      let results := dict_set file entry results in
      sleep (Seconds 1) ;;
      main_loop rest results
  end.

(** [main], once the arguments are parsed and the repositories cloned:
    the aggregated results, or [None] when the navigation is empty or
    loading it raised. *)
Definition main : M (option (list (str * value))) :=
  try_except
    (nav_files <- lift (Config.load_mkdocs_nav E (config_path a)) ;;
     match nav_files with
     | [] => ret None
     | _ =>
         results <- main_loop nav_files [] ;;
         ret (Some results)
     end)
    (fun _ => ret None).

End WithEnv.
End Coordinator.

(** The pause between two documents, told apart from the pauses of the
    retry loop. *)
Definition is_pacing (d : duration) : bool :=
  match d with
  | Seconds 1 => true
  | _ => false
  end.

(** Number of rounds of the [for] loop a world has seen. *)
Definition pacing_pauses (w : world) : nat :=
  List.length (filter is_pacing (slept w)).

(* ===================================================================== *)
(** ** Repository materializer *)
(* ===================================================================== *)

Module Repos.

(** The mantissa of a float's text: what precedes the exponent. *)
Fixpoint mantissa (text : str) : str :=
  match text with
  | c :: r => if N.eqb c 101 || N.eqb c 69 then [] else c :: mantissa r
  | [] => []
  end.

(** Whether a float read from [text] is zero: its mantissa has digits and
    they are all [0]. The infinities and [nan] have no digit. Rounding to
    zero of a text too small to represent is not modelled. *)
Definition float_is_zero (text : str) : bool :=
  existsb Json.is_digit (mantissa text)
  && forallb (fun c => negb (Json.is_digit c) || N.eqb c 48) (mantissa text).

(** [bool(v)], as [if not v] tests it. *)
Definition truthy (v : value) : bool :=
  match v with
  | VNone => false
  | VBool b => b
  | VInt z => negb (Z.eqb z 0)
  | VFloat text => negb (float_is_zero text)
  | VStr s => match s with [] => false | _ :: _ => true end
  | VList l => match l with [] => false | _ :: _ => true end
  | VDict items => match items with [] => false | _ :: _ => true end
  end.

(** The items a [for] loop over [v] visits: the elements of a list, the
    keys of a dictionary, the characters of a string. *)
Definition iter_value (v : value) : result (list value) :=
  match v with
  | VList l => Return l
  | VDict items => Return (map (fun kv => VStr (fst kv)) items)
  | VStr s => Return (map (fun c => VStr [c]) s)
  | other =>
      Raise (Exn TypeError (lit "'" ++ type_name other ++ lit "' object is not iterable"))
  end.

(** The loop over [plugins]: the value under ["multirepo"] in the first
    item that is a mapping holding that key, [None] when there is none. *)
Fixpoint find_multirepo (plugins : list value) : value :=
  match plugins with
  | [] => VNone
  | item :: rest =>
      match item with
      | VDict items =>
          match dict_get (lit "multirepo") items with
          | Some config => config
          | None => find_multirepo rest
          end
      | _ => find_multirepo rest
      end
  end.

(** [import_url.split("?")[0]] *)
Definition base_url_of (import_url : value) : result str :=
  match import_url with
  | VStr s => Return (hd [] (split_on 63 s))
  | other =>
      Raise (Exn AttributeError
               (lit "'" ++ type_name other ++ lit "' object has no attribute 'split'"))
  end.

Definition pull_command (destination : str) : list str :=
  [lit "git"; lit "-C"; destination; lit "pull"].

Definition clone_command (base_url destination : str) : list str :=
  [lit "git"; lit "clone"; base_url; destination].

(** [except subprocess.CalledProcessError] *)
Definition is_called_process_error (e : exn) : bool :=
  match exn_cls e with
  | OtherError name => str_eqb name (lit "CalledProcessError")
  | _ => false
  end.

(** What the directory tree and [git] answer while repositories are
    materialized. Both may depend on the commands run before. *)
Record git_env := GitEnv {
  (** [os.path.exists(p)] after the commands of the log *)
  dir_exists : list (list str) -> str -> bool;
  (** [os.makedirs(target_dir, exist_ok=True)] *)
  makedirs : str -> result unit;
  (** [subprocess.run(argv, check=True)] after the commands of the log *)
  run : list (list str) -> list str -> result unit
}.

Section WithEnv.
Variable E : env.
Variable G : git_env.

(** [subprocess.run] inside its [try]: the command joins the log, and
    only a [CalledProcessError] is swallowed. *)
Definition run_checked (argv : list str) (log : list (list str))
  : result unit * list (list str) :=
  match run G log argv with
  | Return _ => (Return tt, log ++ [argv])
  | Raise e =>
      if is_called_process_error e then (Return tt, log ++ [argv])
      else (Raise e, log ++ [argv])
  end.

(** The body of the loop over [nav_repos], for one entry. *)
Definition clone_one (target_dir : str) (repo : value) (log : list (list str))
  : result unit * list (list str) :=
  match Config.get repo (lit "name") VNone with
  | Raise e => (Raise e, log)
  | Return name =>
      match Config.get repo (lit "import_url") VNone with
      | Raise e => (Raise e, log)
      | Return import_url =>
          if negb (truthy name) || negb (truthy import_url) then (Return tt, log)
          else
            match Locator.as_path name with
            | Raise e => (Raise e, log)
            | Return name =>
                let destination := PosixPath.join target_dir name in
                if dir_exists G log destination
                then run_checked (pull_command destination) log
                else
                  match base_url_of import_url with
                  | Raise e => (Raise e, log)
                  | Return base_url =>
                      run_checked (clone_command base_url destination) log
                  end
            end
      end
  end.

(** The loop over [nav_repos]. *)
Fixpoint clone_loop (target_dir : str) (nav_repos : list value)
    (log : list (list str)) : result unit * list (list str) :=
  match nav_repos with
  | [] => (Return tt, log)
  | repo :: rest =>
      match clone_one target_dir repo log with
      | (Return _, log') => clone_loop target_dir rest log'
      | (Raise e, log') => (Raise e, log')
      end
  end.

(** [clone_multi_repos]: what it returns or raises, and the commands it
    ran, oldest first. *)
Definition clone_multi_repos (mkdocs_config_path target_dir : str)
  : result unit * list (list str) :=
  if negb (path_exists E mkdocs_config_path)
  then (Raise (Config.not_found mkdocs_config_path), [])
  else
    match yaml_load E mkdocs_config_path with
    | Raise e => (Raise e, [])
    | Return config =>
        match result_bind (Config.get config (lit "plugins") (VList [])) iter_value with
        | Raise e => (Raise e, [])
        | Return plugins =>
            let multi_repo_config := find_multirepo plugins in
            if negb (truthy multi_repo_config) then (Return tt, [])
            else
              match Config.get multi_repo_config (lit "nav_repos") (VList []) with
              | Raise e => (Raise e, [])
              | Return nav_repos =>
                  if negb (truthy nav_repos) then (Return tt, [])
                  else
                    match makedirs G target_dir with
                    | Raise e => (Raise e, [])
                    | Return _ =>
                        match iter_value nav_repos with
                        | Raise e => (Raise e, [])
                        | Return repos => clone_loop target_dir repos []
                        end
                    end
              end
        end
    end.

End WithEnv.




(** A command the materializer may run after the commands of [before]: a
    pull in a directory under [target_dir] that exists by then, or a clone
    of a URL without query into a directory that does not. *)
Definition command_ok (G : git_env) (target_dir : str) (before : list (list str))
    (argv : list str) : Prop :=
  (exists name,
      argv = pull_command (PosixPath.join target_dir name)
      /\ dir_exists G before (PosixPath.join target_dir name) = true)
  \/ (exists name url,
         argv = clone_command url (PosixPath.join target_dir name)
         /\ ~ In 63%N url
         /\ dir_exists G before (PosixPath.join target_dir name) = false).

Definition log_ok (G : git_env) (target_dir : str) (log : list (list str)) : Prop :=
  forall before argv after,
    log = before ++ argv :: after -> command_ok G target_dir before argv.

End Repos.

(* ===================================================================== *)
(** ** The script as a whole *)
(* ===================================================================== *)

Module Script.

(** A flat navigation: one single-item mapping per page. *)
Definition page (entry : str * str) : value :=
  VDict [(fst entry, VStr (snd entry))].

Definition keep_page (v : str) : bool := negb (Nav.is_external v).


(** The phrase that introduces the wait in a rate-limit message. *)
Definition try_again : str := lit "Please try again in ".


Section WithEnv.
Variable E : env.
Variable G : Repos.git_env.
Variable a : Coordinator.args.


End WithEnv.
End Script.


(* ===================================================================== *)
(** ** Sample inputs *)
(* ===================================================================== *)

Module Samples.

Definition index_md : str := lit "index.md".
Definition setup_md : str := lit "setup.md".

(** The navigation of the specification's end-to-end scenario. *)
Definition scenario_nav : value :=
  VList [ VDict [(lit "Home", VStr index_md)];
          VDict [(lit "Guide",
                  VList [ VDict [(lit "Setup", VStr setup_md)];
                          VDict [(lit "External", VStr (lit "https://example.com"))] ])] ].

(** A navigation with one mapping, whose first item is an external link
    and whose second item is a document. *)
Definition link_then_doc : value :=
  VList [ VDict [ (lit "External", VStr (lit "https://example.com"));
                  (lit "Guide", VStr (lit "guide.md")) ] ].

(** A site whose document [a.md] exists both under the documentation
    root and next to the configuration, with different contents. *)
Definition two_copies : env :=
  Env (fun p => str_eqb p (lit "/site/docs/a.md") || str_eqb p (lit "/site/a.md"))
      (fun p => if str_eqb p (lit "/site/docs/a.md") then Return (lit "from docs")
                else Return (lit "from base"))
      (fun _ => Return (VDict []))
      (fun _ _ _ => Return None)
      (fun _ _ _ _ => Return None).

Definition quoted (s : string) : str := [34%N] ++ lit s ++ [34%N].

(** The reply of the specification's round-trip example: a JSON object
    wrapped in conversation. *)
Definition wrapped_reply : str :=
  lit "Sure! {" ++ quoted "dominant" ++ lit ": " ++ quoted "tutorial" ++ lit ", "
  ++ quoted "explanation" ++ lit ":10," ++ quoted "tutorial" ++ lit ":70,"
  ++ quoted "how_to" ++ lit ":10," ++ quoted "reference" ++ lit ":10}"
  ++ lit "  -- let me know if you need more.".

Definition sample_args : Coordinator.args :=
  Coordinator.Args (lit "/site/mkdocs.yml") (lit "/opt/classifier/tmp")
    Dispatcher.OpenAI (lit "gpt-4o") (lit "http://localhost:11434") 15000.

(** A provider that answers every request with a rate-limit error whose
    suggested wait is not a number. *)
Definition garbled_wait : env :=
  Env (fun _ => false)
      (fun p => Raise (Exn FileNotFoundError p))
      (fun _ => Return (VDict []))
      (fun _ _ _ =>
         Raise (Exn (OtherError (lit "RateLimitError"))
                  (lit "Rate limit reached for gpt-4o. Please try again in 1.2.3s.")))
      (fun _ _ _ _ => Return None).

(** A run in which each stage fails once: the first document is missing,
    the request for the second is refused, the reply for the third holds
    no JSON, and the fourth goes through. *)
Definition mixed_outcomes : env :=
  Env (fun p => str_eqb p (lit "/site/docs/silent.md")
                || str_eqb p (lit "/site/docs/garbled.md")
                || str_eqb p (lit "/site/docs/ok.md"))
      (fun _ => Return (lit "Some documentation."))
      (fun _ => Return (VDict []))
      (fun n _ _ =>
         match n with
         | 0 => Raise (Exn (OtherError (lit "APIConnectionError"))
                         (lit "Connection reset by peer"))
         | 1 => Return (Some (lit "I cannot classify this."))
         | _ => Return (Some wrapped_reply)
         end)
      (fun _ _ _ _ => Return None).

Definition mixed_nav : list str :=
  [lit "missing.md"; lit "silent.md"; lit "garbled.md"; lit "ok.md"].


(** The site of the specification's end-to-end scenario: both documents
    exist and the provider always answers with the wrapped reply. *)
Definition scenario_site : env :=
  Env (fun _ => true)
      (fun _ => Return (lit "Some documentation."))
      (fun _ => Return (VDict [(lit "nav", scenario_nav)]))
      (fun _ _ _ => Return (Some wrapped_reply))
      (fun _ _ _ _ => Return None).

End Samples.
Import Samples.

Module MoreSamples.

(** A site whose navigation names a file by its absolute path. *)
Definition absolute_site : env :=
  Env (fun p => str_eqb p (lit "/etc/hostname"))
      (fun _ => Return (lit "box"))
      (fun _ => Return (VDict []))
      (fun _ _ _ => Return None)
      (fun _ _ _ _ => Return None).

(** The site [two_copies] with one more file, outside the three roots. *)
Definition two_copies_and_more : env :=
  Env (fun p => str_eqb p (lit "/site/docs/a.md") || str_eqb p (lit "/site/a.md")
                || str_eqb p (lit "/elsewhere/a.md"))
      (fun p => if str_eqb p (lit "/site/docs/a.md") then Return (lit "from docs")
                else if str_eqb p (lit "/elsewhere/a.md") then Return (lit "from elsewhere")
                else Return (lit "from base"))
      (fun _ => Return (VDict []))
      (fun _ _ _ => Return None)
      (fun _ _ _ _ => Return None).

Definition rate_limit (wait : string) : exn :=
  Exn (OtherError (lit "RateLimitError"))
      (lit "Rate limit reached for gpt-4o. Please try again in " ++ lit wait
       ++ lit "s. Visit the dashboard.").



(** A site whose navigation is a plain list of paths. *)
Definition plain_list_site : env :=
  Env (fun _ => true)
      (fun _ => Return (lit "Some documentation."))
      (fun _ => Return (VDict [(lit "nav", VList [VStr (lit "index.md"); VStr (lit "setup.md")])]))
      (fun _ _ _ => Return (Some wrapped_reply))
      (fun _ _ _ _ => Return None).


Definition repo_entry (name url : string) : value :=
  VDict [(lit "name", VStr (lit name)); (lit "import_url", VStr (lit url))].

Definition repo_a : value := repo_entry "docs-a" "https://example.com/a.git?branch=main".
Definition repo_a_again : value := repo_entry "docs-a" "https://example.com/other.git".

(** A directory exists once a clone into it has been run. *)
Definition cloned_before (log : list (list str)) (p : str) : bool :=
  existsb (fun argv =>
             match argv with
             | [_; verb; _; destination] =>
                 str_eqb verb (lit "clone") && str_eqb destination p
             | _ => false
             end) log.

Definition working_git : Repos.git_env :=
  Repos.GitEnv cloned_before (fun _ => Return tt) (fun _ _ => Return tt).



Definition site_with_plugins (plugins : list value) : env :=
  Env (fun _ => true)
      (fun _ => Return (lit "Some documentation."))
      (fun _ => Return (VDict [(lit "plugins", VList plugins)]))
      (fun _ _ _ => Return None)
      (fun _ _ _ _ => Return None).

Definition multirepo (repos : list value) : value :=
  VDict [(lit "multirepo", VDict [(lit "nav_repos", VList repos)])].

End MoreSamples.
Import MoreSamples.

(* ===================================================================== *)
(** * Facts *)
(* ===================================================================== *)

(** ** Strings and dictionaries *)

Lemma str_eqb_spec (a b : str) : reflect (a = b) (str_eqb a b).
Proof.
  revert b; induction a as [|c a IH]; intros [|d b]; simpl;
    try (constructor; congruence).
  destruct (N.eqb_spec c d) as [->|Hne]; simpl.
  - destruct (IH b) as [->|Hne]; constructor; congruence.
  - constructor; congruence.
Qed.


Lemma str_eqb_neq (a b : str) : a <> b -> str_eqb a b = false.
Proof. destruct (str_eqb_spec a b); congruence. Qed.

Lemma startswith_app (p s : str) : startswith p (p ++ s) = true.
Proof.
  induction p as [|c p IH]; simpl; [reflexivity|].
  now rewrite N.eqb_refl.
Qed.

Lemma startswith_inv (p s : str) :
  startswith p s = true -> exists t, s = p ++ t.
Proof.
  revert s; induction p as [|c p IH]; intros s H; simpl in *.
  - now exists s.
  - destruct s as [|d s]; [discriminate|].
    apply andb_prop in H as [Hc Hp].
    apply N.eqb_eq in Hc; subst d.
    destruct (IH _ Hp) as [t ->]. now exists t.
Qed.

Lemma split_on_nonempty (c : N) (s : str) : split_on c s <> [].
Proof.
  induction s as [|d s IH]; simpl; [discriminate|].
  destruct (N.eqb d c); [discriminate|].
  destruct (split_on c s); discriminate.
Qed.

(** The first field of a split is what precedes the first separator. *)
Lemma split_on_head (c : N) (p f : str) :
  ~ In c p -> hd [] (split_on c (p ++ c :: f)) = p.
Proof.
  induction p as [|d p IH]; intros Hnot; simpl.
  - now rewrite N.eqb_refl.
  - destruct (N.eqb_spec d c) as [->|Hne].
    + exfalso; apply Hnot; now left.
    + assert (Hp : ~ In c p) by (intros Hin; apply Hnot; now right).
      specialize (IH Hp).
      destruct (split_on c (p ++ c :: f)) as [|h t] eqn:Hs.
      * exfalso; exact (split_on_nonempty _ _ Hs).
      * simpl in *. now subst h.
Qed.

(** Without a separator the split has one field, the string itself. *)
Lemma split_on_absent (c : N) (p : str) : ~ In c p -> split_on c p = [p].
Proof.
  induction p as [|d p IH]; intros Hnot; simpl; [reflexivity|].
  destruct (N.eqb_spec d c) as [->|Hne].
  - exfalso; apply Hnot; now left.
  - rewrite IH; [reflexivity|]. intros Hin; apply Hnot; now right.
Qed.

(** The first field of a split holds no separator. *)
Lemma split_on_head_clean (c : N) (s : str) : ~ In c (hd [] (split_on c s)).
Proof.
  induction s as [|d s IH]; simpl; [tauto|].
  destruct (N.eqb_spec d c) as [->|Hne]; simpl; [tauto|].
  destruct (split_on c s) as [|h t]; simpl in *; intros [H|H]; congruence || tauto.
Qed.

(** ** Navigation resolver *)

Section NavFacts.
Import Nav.

(** On the scenario of the specification the resolver returns the two
    documents in the declared order. *)
Lemma scenario_nav_resolves : extract_files scenario_nav = [index_md; setup_md].
Proof. reflexivity. Qed.

(** C1, at the input where the code departs from it: in a mapping that
    lists an external link before a document, the document is an accepted
    leaf of the navigation, yet [extract_files] returns nothing, because
    its [return] on the link ends the visit of the mapping. *)
Theorem extract_files_stops_at_external_link :
  accepted_leaves link_then_doc = [lit "guide.md"]
  /\ extract_files link_then_doc = []
  /\ List.length (extract_files link_then_doc)
       <> List.length (accepted_leaves link_then_doc).
Proof. repeat split; try reflexivity. discriminate. Qed.

(** C6: a string value made of a path, [#] and a fragment resolves to
    the path alone, the path being what precedes the first [#]; placed in
    the navigation under a label, the value contributes exactly that path
    (unless it is an external link, which contributes nothing). *)
Theorem fragment_is_stripped (label path frag : str) :
  ~ In 35%N path ->
  strip_fragment (path ++ 35%N :: frag) = path
  /\ (is_external (path ++ 35%N :: frag) = false ->
      extract_files (VList [VDict [(label, VStr (path ++ 35%N :: frag))]]) = [path]).
Proof.
  intros Hclean.
  assert (Hs : strip_fragment (path ++ 35%N :: frag) = path)
    by (unfold strip_fragment; now apply split_on_head).
  split; [exact Hs|].
  intros Hext. simpl. rewrite Hext, Hs. reflexivity.
Qed.

(** The fragment starts at the first [#]: everything from there on is
    dropped. *)
Lemma strip_fragment_first_hash :
  strip_fragment (lit "a#b#c") = lit "a" /\ strip_fragment (lit "#top") = [].
Proof. split; reflexivity. Qed.

(** Whatever the value, the reference kept holds no [#] and is a prefix
    of the value. *)
Lemma strip_fragment_prefix (v : str) :
  ~ In 35%N (strip_fragment v) /\ exists rest, v = strip_fragment v ++ rest.
Proof.
  split; [apply split_on_head_clean|].
  unfold strip_fragment. induction v as [|d v [rest IH]]; simpl.
  - now exists [].
  - destruct (N.eqb d 35); [now exists (d :: v)|].
    pose proof (@split_on_nonempty 35 v) as Hne.
    destruct (split_on 35 v) as [|h t]; [congruence|].
    simpl in *. exists rest. now rewrite <- IH.
Qed.

Lemma fragment_is_stripped_witness :
  strip_fragment (lit "guide.md#setup") = lit "guide.md"
  /\ extract_files (VList [VDict [(lit "Setup", VStr (lit "guide.md#setup"))]])
     = [lit "guide.md"].
Proof.
  destruct (@fragment_is_stripped (lit "Setup") (lit "guide.md") (lit "setup"))
    as [Hs Hx].
  - vm_compute. intuition discriminate.
  - split; [exact Hs | apply Hx; reflexivity].
Defined.

End NavFacts.

(** ** Content locator *)

Section LocatorFacts.
Variable E : env.
Variables (ref config_path clone_dir : str).
Variables (config : value) (docs_root : str).

Hypothesis config_loads : yaml_load E config_path = Return config.
Hypothesis docs_root_configured :
  Config.get config (lit "docs_dir") (VStr (lit "docs")) = Return (VStr docs_root).

Let base := PosixPath.dirname config_path.
Let root1 := PosixPath.join3 base docs_root ref.
Let root2 := PosixPath.join base ref.
Let root3 := PosixPath.join clone_dir ref.

(** C5: the three candidates are tried in the order documentation root,
    directory of the configuration, repository directory; the first one
    that exists is read, so a file present under the first two roots is
    read from the first; when none exists the call raises the not-found
    error. *)
Theorem first_existing_root_wins :
  Locator.read_file_content E ref config_path clone_dir =
    match List.find (path_exists E) [root1; root2; root3] with
    | Some p => read_text E p
    | None => Raise (Locator.not_found ref)
    end
  /\ (path_exists E root1 = true ->
      Locator.read_file_content E ref config_path clone_dir = read_text E root1)
  /\ (path_exists E root1 = false -> path_exists E root2 = true ->
      Locator.read_file_content E ref config_path clone_dir = read_text E root2)
  /\ (path_exists E root1 = false -> path_exists E root2 = false ->
      path_exists E root3 = true ->
      Locator.read_file_content E ref config_path clone_dir = read_text E root3)
  /\ (path_exists E root1 = false -> path_exists E root2 = false ->
      path_exists E root3 = false ->
      Locator.read_file_content E ref config_path clone_dir
      = Raise (Locator.not_found ref)).
Proof.
  assert (Hrun : Locator.read_file_content E ref config_path clone_dir =
                 if path_exists E root1 then read_text E root1
                 else if path_exists E root2 then read_text E root2
                 else if path_exists E root3 then read_text E root3
                 else Raise (Locator.not_found ref)).
  { unfold Locator.read_file_content.
    rewrite config_loads. simpl. rewrite docs_root_configured. reflexivity. }
  rewrite Hrun. simpl.
  destruct (path_exists E root1), (path_exists E root2), (path_exists E root3);
    repeat split; intros; congruence.
Qed.

End LocatorFacts.

Lemma first_existing_root_wins_witness :
  path_exists two_copies (lit "/site/docs/a.md") = true
  /\ path_exists two_copies (lit "/site/a.md") = true
  /\ Locator.read_file_content two_copies (lit "a.md") (lit "/site/mkdocs.yml")
       (lit "/opt/classifier/tmp") = Return (lit "from docs").
Proof.
  split; [reflexivity|]. split; [reflexivity|].
  destruct (@first_existing_root_wins two_copies (lit "a.md")
              (lit "/site/mkdocs.yml") (lit "/opt/classifier/tmp")
              (VDict []) (lit "docs") eq_refl eq_refl) as (_ & Hfirst & _).
  rewrite Hfirst; reflexivity.
Defined.

(** ** Truncation *)

Section TruncateFacts.
Import Dispatcher.

Lemma slice_prefix (s : str) (m : Z) :
  (0 <= m <= len s)%Z -> slice s None (Some m) = firstn (Z.to_nat m) s.
Proof.
  intros Hm. unfold slice, clamp. simpl.
  destruct (Z.ltb_spec m 0); [lia|].
  rewrite Z.min_l by lia. now rewrite Z.sub_0_r.
Qed.

(** C8, at the input where the code departs from it: a negative budget
    counts from the end of the content, so the result is neither within
    the budget nor a prefix of budget length. *)
Lemma truncate_negative_budget :
  truncate_content (lit "abc") (-1) = lit "ab"
  /\ ~ (len (truncate_content (lit "abc") (-1)) <= -1)%Z.
Proof. split; [reflexivity | vm_compute; congruence]. Qed.

(** C8, amended: for a budget that is not negative, the content is
    returned unchanged when its length is within the budget, and is
    otherwise cut to its prefix of budget length; in both cases the result
    is a prefix of the content no longer than the budget, and nothing else
    is returned. *)
Theorem truncate_within_budget (content : str) (max_chars : Z) :
  (0 <= max_chars)%Z ->
  ((len content <= max_chars)%Z -> truncate_content content max_chars = content)
  /\ ((len content > max_chars)%Z ->
      truncate_content content max_chars = firstn (Z.to_nat max_chars) content
      /\ len (truncate_content content max_chars) = max_chars)
  /\ (len (truncate_content content max_chars) <= max_chars)%Z
  /\ (exists dropped, content = truncate_content content max_chars ++ dropped).
Proof.
  intros Hpos. unfold truncate_content.
  destruct (Z.gtb_spec (len content) max_chars) as [Hgt|Hle].
  - rewrite slice_prefix by lia.
    assert (Hlen : len (firstn (Z.to_nat max_chars) content) = max_chars).
    { unfold len in *. rewrite length_firstn. lia. }
    repeat split; intros; try lia; auto.
    exists (skipn (Z.to_nat max_chars) content). now rewrite firstn_skipn.
  - repeat split; intros; try lia; auto.
    exists []. now rewrite app_nil_r.
Qed.

Lemma truncate_within_budget_witness :
  truncate_content (lit "abcdef") 4 = lit "abcd"
  /\ truncate_content (lit "abc") 4 = lit "abc".
Proof.
  destruct (@truncate_within_budget (lit "abcdef") 4 ltac:(lia)) as (_ & Hcut & _).
  destruct (@truncate_within_budget (lit "abc") 4 ltac:(lia)) as (Hkeep & _).
  split.
  - rewrite (proj1 (Hcut ltac:(vm_compute; reflexivity))). reflexivity.
  - apply Hkeep. vm_compute. congruence.
Defined.

End TruncateFacts.

(** ** Response interpreter *)

Section InterpreterFacts.
Import Interpreter.

Lemma find_from_absent (c : N) (s : str) (i : Z) :
  ~ In c s -> find_from c s i = (-1)%Z.
Proof.
  revert i; induction s as [|d s IH]; intros i Hnot; simpl; [reflexivity|].
  destruct (N.eqb_spec d c) as [->|Hne].
  - exfalso; apply Hnot; now left.
  - apply IH. intros Hin; apply Hnot; now right.
Qed.

Lemma find_from_present (c : N) (s : str) (i : Z) :
  In c s -> (i <= find_from c s i < i + len s)%Z.
Proof.
  unfold len. revert i; induction s as [|d s IH]; intros i Hin; [destruct Hin|].
  simpl find_from. simpl List.length.
  destruct (N.eqb_spec d c) as [->|Hne]; [lia|].
  destruct Hin as [->|Hin]; [congruence|].
  specialize (IH (i + 1)%Z Hin). lia.
Qed.

Lemma rfind_from_absent (c : N) (s : str) (i last : Z) :
  ~ In c s -> rfind_from c s i last = last.
Proof.
  revert i last; induction s as [|d s IH]; intros i last Hnot; simpl; [reflexivity|].
  destruct (N.eqb_spec d c) as [->|Hne].
  - exfalso; apply Hnot; now left.
  - apply IH. intros Hin; apply Hnot; now right.
Qed.

Lemma rfind_from_lower (c : N) (s : str) (i last : Z) :
  (0 <= i)%Z -> (-1 <= last)%Z -> (-1 <= rfind_from c s i last)%Z.
Proof.
  revert i last; induction s as [|d s IH]; intros i last Hi Hl; simpl; [exact Hl|].
  apply IH; [lia|]. destruct (N.eqb d c); lia.
Qed.

(** [rfind] never yields less than [-1], so [end] is never [-1]: the
    second test of the guard cannot hold. *)
Lemma end_is_never_minus_one (text : str) : ((rfind 125 text + 1 =? -1) = false)%Z.
Proof.
  apply Z.eqb_neq. pose proof (@rfind_from_lower 125 text 0 (-1))%Z.
  unfold rfind. lia.
Qed.

Lemma body_without_brace (text : str) :
  ~ In 123%N text -> parse_json_body text = Raise no_json_object.
Proof.
  intros Hnot. unfold parse_json_body, find.
  rewrite find_from_absent by assumption. reflexivity.
Qed.

Lemma body_with_brace (text : str) :
  In 123%N text -> parse_json_body text = Json.loads (json_text text).
Proof.
  intros Hin. unfold parse_json_body, json_text.
  pose proof (@find_from_present 123 text 0 Hin) as Hf. fold (find 123 text) in Hf.
  rewrite end_is_never_minus_one.
  destruct (Z.eqb_spec (find 123 text) (-1)) as [Heq|_]; [lia|reflexivity].
Qed.

Lemma slice_to_zero (s : str) (start : Z) :
  (0 <= start)%Z -> slice s (Some start) (Some 0%Z) = [].
Proof.
  intros Hs. unfold slice, clamp.
  destruct (Z.ltb_spec start 0); [lia|].
  change (0 <? 0)%Z with false. cbv iota.
  replace (Z.to_nat (Z.min 0 (len s) - Z.min start (len s))) with O
    by (unfold len; lia).
  reflexivity.
Qed.

Lemma loads_empty :
  Json.loads [] = Raise (Json.decode_error "Expecting value" [] 0).
Proof. reflexivity. Qed.

(** The interpreter returns on every text. *)
Lemma parse_json_response_returns (text : str) :
  exists v, parse_json_response text = Return v.
Proof.
  unfold parse_json_response, try_pure.
  destruct (parse_json_body text); eauto.
Qed.

(** C3, at the input where the code departs from it: ["{}"] decodes to
    the empty dictionary, which holds none of the required keys, and the
    decoded dictionary is returned as it is instead of a parse failure
    carrying the text. *)
Lemma empty_object_is_accepted :
  parse_json_response (lit "{}") = Return (VDict [])
  /\ has_required_keys (VDict []) = false
  /\ ~ is_parse_failure (lit "{}") (VDict []).
Proof.
  repeat split; try reflexivity.
  intros [msg H]; discriminate.
Qed.

(** C3, amended: the interpreter never raises; when the text holds no
    opening brace, or when the text between the first opening and the last
    closing brace does not decode, the result is the error dictionary
    carrying the raw text; a text that decodes is returned as decoded,
    with no check of the keys. *)
Theorem parse_failure_carries_raw_text (text : str) :
  (exists v, parse_json_response text = Return v)
  /\ (~ In 123%N text ->
      parse_json_response text = Return (error_dict no_json_object text)
      /\ is_parse_failure text (error_dict no_json_object text))
  /\ (forall e, In 123%N text -> Json.loads (json_text text) = Raise e ->
      parse_json_response text = Return (error_dict e text)
      /\ is_parse_failure text (error_dict e text))
  /\ (forall v, In 123%N text -> Json.loads (json_text text) = Return v ->
      parse_json_response text = Return v).
Proof.
  split; [apply parse_json_response_returns|].
  unfold parse_json_response, try_pure.
  split; [|split].
  - intros Hnot. rewrite body_without_brace by assumption.
    split; [reflexivity | eexists; reflexivity].
  - intros e Hin He. rewrite body_with_brace, He by assumption.
    split; [reflexivity | eexists; reflexivity].
  - intros v Hin Hv. now rewrite body_with_brace, Hv by assumption.
Qed.

Lemma parse_failure_carries_raw_text_witness :
  parse_json_response (lit "no json here")
    = Return (error_dict no_json_object (lit "no json here"))
  /\ parse_json_response (lit "{oops}")
     = Return (error_dict
                 (Json.decode_error
                    "Expecting property name enclosed in double quotes" (lit "{oops}") 1)
                 (lit "{oops}"))
  /\ parse_json_response (lit "{}") = Return (VDict []).
Proof.
  destruct (parse_failure_carries_raw_text (lit "no json here")) as (_ & Hno & _).
  destruct (parse_failure_carries_raw_text (lit "{oops}")) as (_ & _ & Hbad & _).
  destruct (parse_failure_carries_raw_text (lit "{}")) as (_ & _ & _ & Hok).
  split; [|split].
  - apply Hno. vm_compute. intuition discriminate.
  - apply Hbad; [vm_compute; auto | reflexivity].
  - apply Hok; [vm_compute; auto | reflexivity].
Defined.

(** C7: the wrapped reply of the round-trip example is interpreted as the
    object it holds: [dominant] is ["tutorial"] and the four percentages
    are 10, 70, 10 and 10. *)
Theorem wrapped_reply_round_trip :
  parse_json_response wrapped_reply =
    Return (VDict [ (lit "dominant", VStr (lit "tutorial"));
                    (lit "explanation", VInt 10);
                    (lit "tutorial", VInt 70);
                    (lit "how_to", VInt 10);
                    (lit "reference", VInt 10) ]).
Proof. vm_compute. reflexivity. Qed.

(** C9: the interpreter returns a value on every text. When the text
    holds an opening brace and no closing brace, [rfind] gives [-1] and
    [end] is [0]; the guard does not fire, the slice is empty, the decoder
    rejects it, and the error dictionary carrying the text is returned. *)
Theorem parse_json_response_total (text : str) :
  (exists v, parse_json_response text = Return v)
  /\ (In 123%N text -> ~ In 125%N text ->
      (rfind 125 text + 1)%Z = 0%Z
      /\ ((find 123 text =? -1)%Z || (rfind 125 text + 1 =? -1)%Z) = false
      /\ json_text text = []
      /\ parse_json_response text
         = Return (error_dict (Json.decode_error "Expecting value" [] 0) text)).
Proof.
  split; [apply parse_json_response_returns|].
  intros Hopen Hclose.
  assert (Hend : (rfind 125 text + 1)%Z = 0%Z).
  { unfold rfind. rewrite rfind_from_absent by assumption. reflexivity. }
  pose proof (@find_from_present 123 text 0 Hopen) as Hf. fold (find 123 text) in Hf.
  assert (Htext : json_text text = []).
  { unfold json_text. rewrite Hend. apply slice_to_zero. lia. }
  repeat split; try assumption.
  - rewrite Hend. destruct (Z.eqb_spec (find 123 text) (-1)); [lia|reflexivity].
  - unfold parse_json_response, try_pure.
    rewrite body_with_brace, Htext by assumption. reflexivity.
Qed.

Lemma parse_json_response_total_witness :
  parse_json_response (lit "{ unfinished")
  = Return (error_dict (Json.decode_error "Expecting value" [] 0) (lit "{ unfinished")).
Proof.
  destruct (parse_json_response_total (lit "{ unfinished")) as (_ & H).
  apply H; vm_compute; intuition discriminate.
Defined.

End InterpreterFacts.

(** ** Dictionaries *)

Section DictFacts.
Context {A : Type}.
Implicit Types (d : list (str * A)) (k : str) (v : A).


Lemma dict_get_set_other k k' v d :
  k' <> k -> dict_get k' (dict_set k v d) = dict_get k' d.
Proof.
  intros Hne. induction d as [|[k0 v0] d IH]; simpl.
  - rewrite str_eqb_neq; congruence.
  - destruct (str_eqb_spec k0 k) as [->|Hk]; simpl.
    + rewrite str_eqb_neq; congruence.
    + now rewrite IH.
Qed.

Lemma keys_dict_set_present k v d :
  In k (keys d) -> keys (dict_set k v d) = keys d.
Proof.
  unfold keys. induction d as [|[k' v'] d IH]; simpl; [tauto|].
  intros Hin. destruct (str_eqb_spec k' k) as [->|Hk]; simpl; [reflexivity|].
  f_equal. apply IH. destruct Hin; congruence.
Qed.

Lemma keys_dict_set_absent k v d :
  ~ In k (keys d) -> keys (dict_set k v d) = keys d ++ [k].
Proof.
  unfold keys. induction d as [|[k' v'] d IH]; simpl; [reflexivity|].
  intros Hnot. destruct (str_eqb_spec k' k) as [->|Hk]; simpl.
  - exfalso; apply Hnot; now left.
  - f_equal. apply IH. tauto.
Qed.

Lemma in_keys_dict_set k k' v d :
  In k' (keys (dict_set k v d)) <-> k' = k \/ In k' (keys d).
Proof.
  destruct (in_dec (list_eq_dec N.eq_dec) k (keys d)) as [Hin|Hnot].
  - rewrite keys_dict_set_present by assumption.
    split; [tauto | intros [->|H]; assumption].
  - rewrite keys_dict_set_absent, in_app_iff by assumption. simpl.
    intuition congruence.
Qed.

Lemma nodup_keys_dict_set k v d :
  NoDup (keys d) -> NoDup (keys (dict_set k v d)).
Proof.
  intros Hnd.
  destruct (in_dec (list_eq_dec N.eq_dec) k (keys d)) as [Hin|Hnot].
  - now rewrite keys_dict_set_present.
  - rewrite keys_dict_set_absent by assumption.
    apply NoDup_app; [assumption | repeat constructor; simpl; tauto |].
    intros x Hx [<-|[]]. contradiction.
Qed.



End DictFacts.

(** ** Pipeline coordinator *)

Section PacingFacts.
Import Dispatcher Coordinator.
Variable E : env.

Lemma pacing_after_sleep (d : duration) (w : world) :
  pacing_pauses (snd (sleep d w))
  = pacing_pauses w + (if is_pacing d then 1 else 0).
Proof.
  unfold pacing_pauses, sleep. simpl. rewrite filter_app, length_app. simpl.
  destruct (is_pacing d); reflexivity.
Qed.

Lemma wait_time_is_no_pacing (error_str : str) (d : duration) :
  wait_time_of error_str = Return d -> is_pacing d = false.
Proof.
  unfold wait_time_of, float_of. intros H.
  destruct (search_wait error_str) as [g|].
  - destruct (_ && _); inversion H; reflexivity.
  - inversion H; reflexivity.
Qed.

Lemma openai_round_pacing (prompt model : str) (w : world) :
  pacing_pauses (snd (openai_round E prompt model w)) = pacing_pauses w.
Proof.
  unfold openai_round, try_except, bind, openai_request, ret, lift.
  destruct (openai_chat E (requests w) model prompt) as [content|e]; [reflexivity|].
  destruct (contains _ _); [|reflexivity].
  destruct (wait_time_of (exn_msg e)) as [d|e'] eqn:Hwait; [|reflexivity].
  pose proof (pacing_after_sleep d (World (S (requests w)) (slept w))) as Hs.
  rewrite (wait_time_is_no_pacing _ Hwait), Nat.add_0_r in Hs.
  unfold sleep in *. simpl in *. exact Hs.
Qed.

Lemma openai_loop_pacing (remaining : nat) (prompt model : str) (w : world) :
  pacing_pauses (snd (openai_loop E remaining prompt model w)) = pacing_pauses w.
Proof.
  revert w; induction remaining as [|k IH]; intros w; simpl; [reflexivity|].
  unfold bind. pose proof (openai_round_pacing prompt model w) as Hr.
  destruct (openai_round E prompt model w) as [[[raw|]|e] w1]; simpl in *;
    try assumption.
  now rewrite IH.
Qed.

Lemma send_request_pacing (prompt : str) (p : provider) (model host : str)
    (w : world) :
  pacing_pauses (snd (send_request E prompt p model host w)) = pacing_pauses w.
Proof.
  destruct p; simpl.
  - apply openai_loop_pacing.
  - unfold send_to_ollama, try_except, ollama_request, ret.
    destruct (ollama_chat E _ _ _ _); reflexivity.
Qed.

Variable a : args.

(** One round of the [for] loop always yields a value for the results:
    the message of the exception caught, [None] when no reply came, or
    what the interpreter made of the reply. *)
Lemma process_file_returns (file : str) (w : world) :
  exists v w',
    process_file E a file w = (Return v, w')
    /\ pacing_pauses w' = pacing_pauses w
    /\ ((exists e, v = error_entry file e)
        \/ v = VNone
        \/ (exists raw, Interpreter.parse_json_response raw = Return v)).
Proof.
  unfold process_file, process_body, try_except, bind, lift, ret.
  destruct (Locator.read_file_content E file (config_path a) (clone_dir a))
    as [content|e]; [|eauto 8].
  pose proof (send_request_pacing
                (format_prompt (truncate_content content (max_chars a)))
                (arg_provider a) (arg_model a) (ollama_host a) w) as Hp.
  destruct (send_request E _ _ _ _ w) as [[raw|e] w1]; simpl in Hp; [|eauto 8].
  destruct raw as [[|c raw]|]; [eauto 8| |eauto 8].
  destruct (parse_json_response_returns (c :: raw)) as [v Hv].
  rewrite Hv. eauto 10.
Qed.




(** The [for] loop runs to its end whatever happens to each document:
    it returns a dictionary whose keys are the keys it started with and
    the references, each once, after one round per reference. *)
Lemma main_loop_returns (nav_files : list str) :
  forall (results : list (str * value)) (w : world),
    NoDup (keys results) ->
    exists final w',
      main_loop E a nav_files results w = (Return final, w')
      /\ NoDup (keys final)
      /\ (forall k, In k (keys final) <-> In k (keys results) \/ In k nav_files)
      /\ (forall k, ~ In k nav_files -> dict_get k final = dict_get k results)
      /\ pacing_pauses w' = pacing_pauses w + List.length nav_files.
Proof.
  induction nav_files as [|file rest IH]; intros results w Hnd; simpl.
  - exists results, w. unfold ret. repeat split; try tauto. lia.
  - destruct (process_file_returns file w) as (v & w1 & Hrun & Hpace & _).
    unfold bind. rewrite Hrun.
    pose proof (pacing_after_sleep (Seconds 1) w1) as Hsleep.
    destruct (sleep (Seconds 1) w1) as [[[]|e] w2] eqn:Hs;
      [|unfold sleep in Hs; discriminate].
    simpl in Hsleep.
    destruct (IH (dict_set file v results) w2 (nodup_keys_dict_set file v results Hnd))
      as (final & w' & Hloop & Hnd' & Hkeys & Hget & Hcount).
    exists final, w'. rewrite Hloop. repeat split; try assumption.
    + intros Hin. apply Hkeys in Hin. rewrite in_keys_dict_set in Hin.
      intuition auto.
    + intros Hin. apply Hkeys. rewrite in_keys_dict_set. intuition auto.
    + intros k Hnot. rewrite Hget by tauto.
      apply dict_get_set_other. intros ->. tauto.
    + lia.
Qed.



(** When no reference is repeated, the keys of the results are the
    references in the order of the navigation. *)
Lemma main_loop_keys_in_order (nav_files : list str) :
  forall (results final : list (str * value)) (w w' : world),
    NoDup (keys results ++ nav_files) ->
    main_loop E a nav_files results w = (Return final, w') ->
    keys final = keys results ++ nav_files.
Proof.
  induction nav_files as [|file rest IH]; intros results final w w' Hnd Hrun.
  - simpl in Hrun. unfold ret in Hrun. inversion Hrun; subst.
    now rewrite app_nil_r.
  - simpl in Hrun. unfold bind in Hrun.
    destruct (process_file_returns file w) as (v & w1 & Hfile & _).
    rewrite Hfile in Hrun. unfold sleep at 1 in Hrun.
    assert (Hfresh : ~ In file (keys results)).
    { intros Hin. apply NoDup_remove_2 in Hnd. apply Hnd.
      apply in_or_app. now left. }
    apply IH in Hrun.
    + rewrite Hrun, keys_dict_set_absent by assumption.
      now rewrite <- app_assoc.
    + rewrite keys_dict_set_absent by assumption.
      now rewrite <- app_assoc.
Qed.

(** The outer [try] block of [main] never raises either. *)
Lemma main_returns (w : world) :
  exists report w', main E a w = (Return report, w').
Proof.
  unfold main, try_except, bind, lift, ret.
  destruct (Config.load_mkdocs_nav E (config_path a)) as [[|f nav]|e]; eauto.
  destruct (@main_loop_returns (f :: nav) [] w (NoDup_nil _))
    as (final & w' & Hloop & _).
  rewrite Hloop. eauto.
Qed.

End PacingFacts.

(** ** The decoder never runs out of fuel *)

Section JsonFacts.
Import Json.

Ltac break_match_in H :=
  match type of H with
  | context [match ?x with _ => _ end] => destruct x eqn:?; cbv beta iota in H
  end.

Ltac break_match :=
  match goal with
  | |- context [match ?x with _ => _ end] => destruct x eqn:?; cbv beta iota
  end.

Lemma skip_ws_shorter (s : str) (idx : nat) :
  List.length (fst (skip_ws s idx)) <= List.length s.
Proof.
  revert idx; induction s as [|c s IH]; intros idx; simpl; [lia|].
  destruct (is_ws c); simpl; [|lia]. specialize (IH (S idx)). lia.
Qed.

Lemma span_digits_length (s : str) :
  List.length s = List.length (fst (span_digits s)) + List.length (snd (span_digits s)).
Proof.
  induction s as [|c s IH]; simpl; [reflexivity|].
  destruct (is_digit c); simpl; [|reflexivity].
  destruct (span_digits s); simpl in *. lia.
Qed.

Lemma scan_frac_shorter (s : str) :
  List.length (snd (scan_frac s)) <= List.length s.
Proof.
  unfold scan_frac. destruct s as [|dot [|d r]]; simpl; try lia.
  destruct (_ && _); simpl; [|lia].
  pose proof (span_digits_length r). destruct (span_digits r); simpl in *. lia.
Qed.

Lemma scan_exp_shorter (s : str) :
  List.length (snd (scan_exp s)) <= List.length s.
Proof.
  unfold scan_exp. destruct s as [|e r]; simpl; [lia|].
  destruct (_ || _); simpl; [|lia].
  destruct r as [|sg r']; simpl; [lia|].
  destruct (_ || _).
  - pose proof (span_digits_length r'). destruct (span_digits r') as [[|? ?] ?];
      simpl in *; lia.
  - pose proof (span_digits_length (sg :: r')).
    destruct (span_digits (sg :: r')) as [[|? ?] ?]; simpl in *; lia.
Qed.

(** A number scanned takes at least one character. *)
Lemma match_number_consumes (s : str) (idx : nat) :
  match_number s idx <> Exhausted
  /\ forall v r j, match_number s idx = Scanned v r j ->
       List.length r < List.length s.
Proof.
  unfold match_number.
  set (cut := match s with
              | c :: r => if N.eqb c 45 then (true, r) else (false, s)
              | [] => (false, s)
              end).
  assert (Hcut : List.length (snd cut) <= List.length s).
  { subst cut. destruct s as [|c r]; simpl; [lia|]. destruct (N.eqb c 45); simpl; lia. }
  destruct cut as [neg s1]. simpl in Hcut.
  destruct s1 as [|d r]; [split; [discriminate | intros; discriminate]|].
  set (int_part := if N.leb 49 d && N.leb d 57
                   then let (ds, r') := span_digits r in Some (d :: ds, r')
                   else if N.eqb d 48 then Some ([d], r) else None).
  assert (Hint : match int_part with
                 | Some (_, r1) => List.length r1 <= List.length r
                 | None => True
                 end).
  { subst int_part. destruct (_ && _).
    - pose proof (span_digits_length r). destruct (span_digits r); simpl in *. lia.
    - destruct (N.eqb d 48); simpl; lia. }
  destruct int_part as [[ds r1]|]; [|split; [discriminate | intros; discriminate]].
  pose proof (scan_frac_shorter r1) as Hf. destruct (scan_frac r1) as [frac r2].
  pose proof (scan_exp_shorter r2) as He. destruct (scan_exp r2) as [ex r3].
  simpl in *.
  split.
  - destruct frac, ex; try discriminate. destruct (Nat.ltb _ _); discriminate.
  - intros v r' j H.
    assert (r' = r3).
    { destruct frac, ex; try (inversion H; reflexivity).
      destruct (Nat.ltb _ _); inversion H; reflexivity. }
    subst. lia.
Qed.

(** A string scanned takes at least its closing quote. *)
Lemma scanstring_consumes (n : nat) :
  forall (begin : nat) (s : str) (idx : nat) (acc : str),
    List.length s <= n ->
    scanstring begin s idx acc <> Exhausted
    /\ forall k r j, scanstring begin s idx acc = Scanned k r j ->
         List.length r < List.length s.
Proof.
  induction n as [|n IH]; intros begin s idx acc Hn.
  - destruct s; [|simpl in Hn; lia]. split; [discriminate | intros; discriminate].
  - destruct s as [|c r0]; [split; [discriminate | intros; discriminate]|].
    simpl in Hn.
    assert (Hrec : forall s' i' acc', List.length s' <= n -> List.length s' < S (List.length r0) ->
              scanstring begin s' i' acc' <> Exhausted
              /\ forall k r j, scanstring begin s' i' acc' = Scanned k r j ->
                   List.length r < S (List.length r0)).
    { intros s' i' acc' H1 H2. destruct (IH begin s' i' acc' H1) as [Ha Hb].
      split; [exact Ha|]. intros k r j H. specialize (Hb _ _ _ H). lia. }
    clear IH. simpl List.length.
    cbn [scanstring].
    repeat (break_match; try (split; [discriminate | intros; discriminate]));
      try (apply Hrec; simpl in *; lia).
    split; [discriminate|]. intros k r j H. inversion H; subst. lia.
Qed.

Section Loops.
Variable scan : str -> nat -> scan value.
Variable bound : nat.
Hypothesis scan_consumes : consumes scan bound.

Lemma array_loop_consumes (fuel : nat) :
  forall (s : str) (i : nat) (acc : list value),
    List.length s <= bound -> List.length s < fuel ->
    array_loop scan fuel s i acc <> Exhausted
    /\ forall v r j, array_loop scan fuel s i acc = Scanned v r j ->
         List.length r < List.length s.
Proof.
  induction fuel as [|fuel IH]; intros s i acc Hb Hf; [lia|].
  cbn [array_loop]. destruct (scan_consumes s i Hb) as [Hne Hlt].
  destruct (scan s i) as [v r j| | | |]; cbn [scan_bind];
    try (split; [discriminate | intros; discriminate]); [|congruence].
  specialize (Hlt _ _ _ eq_refl).
  pose proof (skip_ws_shorter r j) as Hw.
  destruct (skip_ws r j) as [r1 j1]. simpl in Hw.
  destruct r1 as [|c r2]; [split; [discriminate | intros; discriminate]|].
  simpl in Hw.
  destruct (N.eqb c 93).
  { split; [discriminate|]. intros v' r' j' H. inversion H; subst. lia. }
  destruct (N.eqb c 44); [|split; [discriminate | intros; discriminate]].
  pose proof (skip_ws_shorter r2 (S j1)) as Hw2.
  destruct (skip_ws r2 (S j1)) as [r3 j3]. simpl in Hw2.
  destruct (IH r3 j3 (v :: acc)) as [Ha Hb']; [lia | lia |].
  split; [exact Ha|]. intros v' r' j' H. specialize (Hb' _ _ _ H). lia.
Qed.

Lemma parse_array_consumes (s : str) (i : nat) :
  List.length s <= bound ->
  parse_array scan s i <> Exhausted
  /\ forall v r j, parse_array scan s i = Scanned v r j ->
       List.length r < S (List.length s).
Proof.
  intros Hb. unfold parse_array.
  pose proof (skip_ws_shorter s i) as Hw.
  destruct (skip_ws s i) as [s1 i1]. simpl in Hw.
  assert (Hloop : array_loop scan (S (List.length s1)) s1 i1 [] <> Exhausted
                  /\ forall v r j,
                       array_loop scan (S (List.length s1)) s1 i1 [] = Scanned v r j ->
                       List.length r < S (List.length s)).
  { destruct (@array_loop_consumes (S (List.length s1)) s1 i1 []) as [Ha Hb'];
      [lia | lia |].
    split; [exact Ha|]. intros v r j H. specialize (Hb' _ _ _ H). lia. }
  destruct s1 as [|c r]; [exact Hloop|].
  destruct (N.eqb c 93); [|exact Hloop].
  split; [discriminate|]. intros v r' j H. inversion H; subst. simpl in Hw. lia.
Qed.

Lemma object_loop_consumes (fuel : nat) :
  forall (s : str) (i : nat) (acc : list (str * value)),
    List.length s <= bound -> List.length s < fuel ->
    object_loop scan fuel s i acc <> Exhausted
    /\ forall v r j, object_loop scan fuel s i acc = Scanned v r j ->
         List.length r < List.length s.
Proof.
  induction fuel as [|fuel IH]; intros s i acc Hb Hf; [lia|].
  cbn [object_loop].
  destruct s as [|q r]; [split; [discriminate | intros; discriminate]|].
  simpl in Hb, Hf.
  destruct (N.eqb q 34); [|split; [discriminate | intros; discriminate]].
  destruct (@scanstring_consumes (List.length r) i r (S i) [] (le_n _)) as [Hne Hlt].
  destruct (scanstring i r (S i) []) as [key r1 j1| | | |]; cbn [scan_bind];
    try (split; [discriminate | intros; discriminate]); [|congruence].
  specialize (Hlt _ _ _ eq_refl).
  pose proof (skip_ws_shorter r1 j1) as Hw.
  destruct (skip_ws r1 j1) as [r2 j2]. simpl in Hw.
  destruct r2 as [|colon r3]; [split; [discriminate | intros; discriminate]|].
  simpl in Hw.
  destruct (N.eqb colon 58); [|split; [discriminate | intros; discriminate]].
  pose proof (skip_ws_shorter r3 (S j2)) as Hw4.
  destruct (skip_ws r3 (S j2)) as [r4 j4]. simpl in Hw4.
  destruct (scan_consumes r4 j4) as [Hne5 Hlt5]; [lia|].
  destruct (scan r4 j4) as [v r5 j5| | | |]; cbn [scan_bind];
    try (split; [discriminate | intros; discriminate]); [|congruence].
  specialize (Hlt5 _ _ _ eq_refl).
  pose proof (skip_ws_shorter r5 j5) as Hw6.
  destruct (skip_ws r5 j5) as [r6 j6]. simpl in Hw6.
  destruct r6 as [|c r7]; [split; [discriminate | intros; discriminate]|].
  simpl in Hw6. simpl List.length.
  destruct (N.eqb c 125).
  { split; [discriminate|]. intros v' r' j' H. inversion H; subst. lia. }
  destruct (N.eqb c 44); [|split; [discriminate | intros; discriminate]].
  pose proof (skip_ws_shorter r7 (S j6)) as Hw8.
  destruct (skip_ws r7 (S j6)) as [r8 j8]. simpl in Hw8.
  destruct (IH r8 j8 (dict_set key v acc)) as [Ha Hb']; [lia | lia |].
  split; [exact Ha|]. intros v' r' j' H. specialize (Hb' _ _ _ H). lia.
Qed.

Lemma parse_object_consumes (s : str) (i : nat) :
  List.length s <= bound ->
  parse_object scan s i <> Exhausted
  /\ forall v r j, parse_object scan s i = Scanned v r j ->
       List.length r < S (List.length s).
Proof.
  intros Hb. unfold parse_object.
  pose proof (skip_ws_shorter s i) as Hw.
  destruct (skip_ws s i) as [s1 i1]. simpl in Hw.
  assert (Hloop : object_loop scan (S (List.length s1)) s1 i1 [] <> Exhausted
                  /\ forall v r j,
                       object_loop scan (S (List.length s1)) s1 i1 [] = Scanned v r j ->
                       List.length r < S (List.length s)).
  { destruct (@object_loop_consumes (S (List.length s1)) s1 i1 []) as [Ha Hb'];
      [lia | lia |].
    split; [exact Ha|]. intros v r j H. specialize (Hb' _ _ _ H). lia. }
  destruct s1 as [|c r]; [exact Hloop|].
  destruct (N.eqb c 125); [|exact Hloop].
  split; [discriminate|]. intros v r' j H. inversion H; subst. simpl in Hw. lia.
Qed.

End Loops.

(** With a nesting budget of [depth], the scanner handles every input of
    length at most [depth]. *)
Lemma scan_once_consumes (depth : nat) : consumes (scan_once depth) depth.
Proof.
  induction depth as [|d IH]; intros s i Hb.
  - destruct s; [|simpl in Hb; lia]. split; [discriminate | intros; discriminate].
  - destruct s as [|c r]; [split; [discriminate | intros; discriminate]|].
    simpl in Hb. cbn [scan_once]. simpl List.length.
    destruct (N.eqb c 34).
    { destruct (@scanstring_consumes (List.length r) i r (S i) [] (le_n _)) as [Hne Hlt].
      destruct (scanstring i r (S i) []) as [k r1 j1| | | |]; cbn [scan_bind];
        try (split; [discriminate | intros; discriminate]); [|congruence].
      specialize (Hlt _ _ _ eq_refl).
      split; [discriminate|]. intros v r' j H. inversion H; subst. lia. }
    destruct (N.eqb c 123); [apply parse_object_consumes with (bound := d); [exact IH | lia]|].
    destruct (N.eqb c 91); [apply parse_array_consumes with (bound := d); [exact IH | lia]|].
    assert (Hk : forall k, List.length (skipn k r) < S (List.length r))
      by (intros k; rewrite length_skipn; lia).
    repeat match goal with
           | |- context [if startswith ?p ?t then _ else _] =>
               destruct (startswith p t);
               [split; [discriminate|]; intros v r' j H; inversion H; subst;
                first [exact (Hk 2) | exact (Hk 3) | exact (Hk 4)
                      | exact (Hk 7) | exact (Hk 8)]|]
           end.
    destruct (match_number_consumes (c :: r) i) as [Hne Hlt].
    split; [exact Hne|]. intros v r' j H. specialize (Hlt _ _ _ H). simpl in Hlt. lia.
Qed.

(** The decoder's fuel is enough: no document exhausts it, so the
    [RecursionError] branch of [loads] is never taken. *)
Lemma scan_document_not_exhausted (doc : str) : scan_document doc <> Exhausted.
Proof.
  unfold scan_document. pose proof (skip_ws_shorter doc 0) as Hw.
  destruct (skip_ws doc 0) as [s i]. simpl in Hw.
  now apply scan_once_consumes.
Qed.

End JsonFacts.

(** ** Classification dispatcher *)

Section DispatcherFacts.
Import Dispatcher.
Variable E : env.
Variables (prompt model : str).

(** One turn of the loop. *)
Lemma openai_loop_step (remaining : nat) (w : world) :
  openai_loop E (S remaining) prompt model w =
    match openai_round E prompt model w with
    | (Return (Returned raw), w1) => (Return raw, w1)
    | (Return Retry, w1) => openai_loop E remaining prompt model w1
    | (Raise e, w1) => (Raise e, w1)
    end.
Proof.
  cbn [openai_loop]. unfold bind.
  destruct (openai_round E prompt model w) as [[[raw|]|e] w1]; reflexivity.
Qed.

(** A reply ends the loop at once. *)
Lemma send_to_openai_reply (raw : option str) (w : world) :
  openai_chat E (requests w) model prompt = Return raw ->
  send_to_openai E prompt model w = (Return raw, World (S (requests w)) (slept w)).
Proof.
  intros H. unfold send_to_openai, max_retries. rewrite openai_loop_step.
  unfold openai_round, try_except, bind, openai_request, ret. now rewrite H.
Qed.

(** An error that is no rate limit ends the loop at once, with no
    result. *)
Lemma send_to_openai_other_error (e : exn) (w : world) :
  openai_chat E (requests w) model prompt = Raise e ->
  contains (lit "Rate limit reached") (exn_msg e) = false ->
  send_to_openai E prompt model w = (Return None, World (S (requests w)) (slept w)).
Proof.
  intros H Hc. unfold send_to_openai, max_retries. rewrite openai_loop_step.
  unfold openai_round, try_except, bind, openai_request, ret. now rewrite H, Hc.
Qed.

(** The loop sends at most as many requests as it has rounds left. *)
Lemma openai_loop_bounded (remaining : nat) (w : world) :
  requests (snd (openai_loop E remaining prompt model w)) <= requests w + remaining.
Proof.
  revert w; induction remaining as [|k IH]; intros w.
  - cbn [openai_loop]. unfold ret. simpl. lia.
  - rewrite openai_loop_step.
    unfold openai_round, try_except, bind, openai_request, ret, lift, sleep.
    destruct (openai_chat E (requests w) model prompt) as [raw|e]; simpl; [lia|].
    destruct (contains _ _); simpl; [|lia].
    destruct (wait_time_of (exn_msg e)) as [d|e']; simpl; [|lia].
    specialize (IH (World (S (requests w)) (slept w ++ [d]))). simpl in IH. lia.
Qed.

Lemma send_to_openai_bounded (w : world) :
  requests (snd (send_to_openai E prompt model w)) <= requests w + 5.
Proof. apply openai_loop_bounded. Qed.


End DispatcherFacts.

(** C4, at the input where the code departs from it: on a rate-limit
    error whose text suggests a wait that is no number, here [1.2.3], the
    conversion of the wait raises inside the handler, and the exception
    leaves [send_to_openai] after a single request: no fallback to the
    default wait, no retry, and no [None] returned. *)
Theorem send_to_openai_raises_on_garbled_wait :
  Dispatcher.wait_time_of
    (lit "Rate limit reached for gpt-4o. Please try again in 1.2.3s.")
  = Raise (Exn ValueError (lit "could not convert string to float: '1.2.3'"))
  /\ Dispatcher.send_to_openai garbled_wait (lit "prompt") (lit "gpt-4o") (World 0 [])
     = (Raise (Exn ValueError (lit "could not convert string to float: '1.2.3'")),
        World 1 []).
Proof. split; vm_compute; reflexivity. Qed.

(** ** Runs of the coordinator on the sample worlds *)


(** What the sample run records: the message of the exception for the
    missing document, [None] for the refused request, the error dictionary
    for the reply without JSON, the decoded object for the last. *)
Lemma mixed_outcomes_report :
  fst (Coordinator.main_loop mixed_outcomes sample_args mixed_nav [] (World 0 []))
  = Return
      [ (lit "missing.md",
         VStr (lit "Error processing file missing.md: File 'missing.md' not found in expected locations."));
        (lit "silent.md", VNone);
        (lit "garbled.md",
         Interpreter.error_dict Interpreter.no_json_object (lit "I cannot classify this."));
        (lit "ok.md",
         VDict [ (lit "dominant", VStr (lit "tutorial"));
                 (lit "explanation", VInt 10);
                 (lit "tutorial", VInt 70);
                 (lit "how_to", VInt 10);
                 (lit "reference", VInt 10) ]) ].
Proof. vm_compute. reflexivity. Qed.

(** The end-to-end scenario of the specification: the report has the
    two documents as its keys, in the order of the navigation. *)
Lemma scenario_report_keys :
  exists report w',
    Coordinator.main scenario_site sample_args (World 0 []) = (Return (Some report), w')
    /\ keys report = [index_md; setup_md].
Proof. eexists. eexists. split; vm_compute; reflexivity. Qed.


(** ** Where the resolver follows the specification *)

Section NavAgreement.
Import Nav.

(** Induction over values that reaches the elements of lists and the
    values of dictionaries. *)
Lemma value_ind_nested (P : value -> Prop) :
  P VNone ->
  (forall b, P (VBool b)) ->
  (forall z, P (VInt z)) ->
  (forall t, P (VFloat t)) ->
  (forall s, P (VStr s)) ->
  (forall l, Forall P l -> P (VList l)) ->
  (forall items, Forall (fun kv => P (snd kv)) items -> P (VDict items)) ->
  forall v, P v.
Proof.
  intros HNone HBool HInt HFloat HStr HList HDict.
  fix self 1. intros [| b | z | t | s | l | items];
    [exact HNone | apply HBool | apply HInt | apply HFloat | apply HStr | |].
  - apply HList. induction l as [|x l IH]; constructor; [apply self | exact IH].
  - apply HDict. induction items as [|[k x] items IH]; constructor;
      [apply self | exact IH].
Qed.

Lemma extract_files_list (l : list value) :
  extract_files (VList l) = flat_map extract_files l.
Proof.
  induction l as [|x l IH]; [reflexivity|].
  change (extract_files (VList (x :: l)))
    with (extract_files x ++ extract_files (VList l)).
  now rewrite IH.
Qed.

Lemma accepted_leaves_list (l : list value) :
  accepted_leaves (VList l) = flat_map accepted_leaves l.
Proof.
  induction l as [|x l IH]; [reflexivity|].
  change (accepted_leaves (VList (x :: l)))
    with (accepted_leaves x ++ accepted_leaves (VList l)).
  now rewrite IH.
Qed.

Lemma links_last_list (l : list value) :
  links_last (VList l) = forallb links_last l.
Proof.
  induction l as [|x l IH]; [reflexivity|].
  change (links_last (VList (x :: l)))
    with (links_last x && links_last (VList l)).
  now rewrite IH.
Qed.

(** How each traversal treats the first item of a mapping. *)
Lemma extract_files_item (k : str) (v : value) (rest : list (str * value)) :
  extract_files (VDict ((k, v) :: rest)) =
    match v with
    | VList vs => extract_files (VList vs) ++ extract_files (VDict rest)
    | VStr s => if is_external s then []
                else strip_fragment s :: extract_files (VDict rest)
    | _ => extract_files (VDict rest)
    end.
Proof. destruct v; reflexivity. Qed.

Lemma accepted_leaves_item (k : str) (v : value) (rest : list (str * value)) :
  accepted_leaves (VDict ((k, v) :: rest)) =
    match v with
    | VList vs => accepted_leaves (VList vs) ++ accepted_leaves (VDict rest)
    | VStr s => if is_external s then accepted_leaves (VDict rest)
                else strip_fragment s :: accepted_leaves (VDict rest)
    | _ => accepted_leaves (VDict rest)
    end.
Proof. destruct v; reflexivity. Qed.

Lemma links_last_item (k : str) (v : value) (rest : list (str * value)) :
  links_last (VDict ((k, v) :: rest)) =
    match v with
    | VList vs => links_last (VList vs) && links_last (VDict rest)
    | VStr s => if is_external s
                then match rest with [] => true | _ :: _ => false end
                else links_last (VDict rest)
    | _ => links_last (VDict rest)
    end.
Proof. destruct v; reflexivity. Qed.

(** On a navigation whose external links close their mappings, as in a
    navigation of one-item mappings, the resolver returns exactly the
    accepted leaves, in order. *)
Lemma extract_files_agrees (nav : value) :
  links_last nav = true -> extract_files nav = accepted_leaves nav.
Proof.
  induction nav as [| b | z | t | s | l IH | items IH] using value_ind_nested;
    try reflexivity.
  - rewrite links_last_list, extract_files_list, accepted_leaves_list.
    induction IH as [|x l Hx _ IHl]; simpl; [reflexivity|].
    intros H. apply andb_prop in H as [H1 H2]. now rewrite Hx, IHl.
  - induction IH as [|[k v] rest Hv _ IHrest]; [reflexivity|].
    rewrite links_last_item, extract_files_item, accepted_leaves_item.
    simpl in Hv. destruct v; try exact IHrest.
    + destruct (is_external s).
      * destruct rest; [reflexivity | discriminate].
      * intros H. now rewrite IHrest.
    + intros H. apply andb_prop in H as [H1 H2]. now rewrite Hv, IHrest.
Qed.

(** What the resolver returns is always among the accepted leaves: it
    never returns an external link or a value that is no string. *)
Lemma extract_files_accepted (nav : value) :
  incl (extract_files nav) (accepted_leaves nav).
Proof.
  induction nav as [| b | z | t | s | l IH | items IH] using value_ind_nested;
    try (intros x []).
  - rewrite extract_files_list, accepted_leaves_list.
    induction IH as [|x l Hx _ IHl]; simpl; [intros y []|].
    apply incl_app_app; assumption.
  - induction IH as [|[k v] rest Hv _ IHrest]; [intros y []|].
    rewrite extract_files_item, accepted_leaves_item.
    simpl in Hv. destruct v; try exact IHrest.
    + destruct (is_external s); [intros y []|].
      apply incl_cons; [now left | now apply incl_tl].
    + apply incl_app_app; assumption.
Qed.

End NavAgreement.

(** ** What the interpreter returns is a dictionary *)

Section ResultShape.
Import Json Interpreter.

Lemma object_loop_dict (scan : str -> nat -> scan value) (fuel : nat) :
  forall s i acc v r j,
    object_loop scan fuel s i acc = Scanned v r j -> is_dict v.
Proof.
  induction fuel as [|fuel IH]; intros s i acc v r j; cbn [object_loop];
    [discriminate|].
  destruct s as [|q s]; [discriminate|].
  destruct (N.eqb q 34); [|discriminate].
  destruct (scanstring i s (S i) []) as [key r1 j1| | | |]; cbn [scan_bind];
    try discriminate.
  destruct (skip_ws r1 j1) as [[|colon r3] j2]; [discriminate|].
  destruct (N.eqb colon 58); [|discriminate].
  destruct (skip_ws r3 (S j2)) as [r4 j4].
  destruct (scan r4 j4) as [x r5 j5| | | |]; cbn [scan_bind]; try discriminate.
  destruct (skip_ws r5 j5) as [[|c r7] j6]; [discriminate|].
  destruct (N.eqb c 125); [intros H; inversion H; eexists; reflexivity|].
  destruct (N.eqb c 44); [|discriminate].
  destruct (skip_ws r7 (S j6)) as [r8 j8]. apply IH.
Qed.

Lemma parse_object_dict (scan : str -> nat -> scan value) s i v r j :
  parse_object scan s i = Scanned v r j -> is_dict v.
Proof.
  unfold parse_object. destruct (skip_ws s i) as [[|c s1] i1].
  - apply object_loop_dict.
  - destruct (N.eqb c 125); [intros H; inversion H; eexists; reflexivity|].
    apply object_loop_dict.
Qed.

(** A document that starts with an opening brace decodes to a dictionary
    or not at all. *)
Lemma loads_object (r : str) (v : value) :
  loads (123%N :: r) = Return v -> is_dict v.
Proof.
  unfold loads, scan_document.
  change (startswith [65279%N] (123%N :: r)) with false.
  change (skip_ws (123%N :: r) 0) with (123%N :: r, 0).
  cbv beta iota.
  change (scan_once (List.length (123%N :: r)) (123%N :: r) 0)
    with (parse_object (scan_once (List.length r)) r 1).
  destruct (parse_object (scan_once (List.length r)) r 1) as [x r1 j1| | | |] eqn:Hp;
    try discriminate.
  destruct (skip_ws r1 j1) as [[|c r2] j2]; [|discriminate].
  intros H; inversion H; subst. eapply parse_object_dict; eassumption.
Qed.

Lemma skipn_find_from (c : N) (s : str) (i : Z) :
  In c s -> exists r, skipn (Z.to_nat (find_from c s i - i)) s = c :: r.
Proof.
  revert i; induction s as [|d s IH]; intros i Hin; [destruct Hin|].
  simpl find_from. destruct (N.eqb_spec d c) as [->|Hne].
  - rewrite Z.sub_diag. now exists s.
  - destruct Hin as [->|Hin]; [congruence|].
    destruct (IH (i + 1)%Z Hin) as [r Hr]. exists r.
    pose proof (@find_from_present c s (i + 1) Hin) as Hb.
    replace (Z.to_nat (find_from c s (i + 1) - i))
      with (S (Z.to_nat (find_from c s (i + 1) - (i + 1)))) by lia.
    exact Hr.
Qed.

Lemma json_text_shape (text : str) :
  In 123%N text -> json_text text = [] \/ exists r, json_text text = 123%N :: r.
Proof.
  intros Hin. unfold json_text, slice, clamp.
  pose proof (@find_from_present 123 text 0 Hin) as Hf. fold (find 123 text) in Hf.
  destruct (Z.ltb_spec (find 123 text) 0); [lia|].
  rewrite (Z.min_l (find 123 text)) by lia.
  destruct (@skipn_find_from 123 text 0 Hin) as [r Hr].
  rewrite Z.sub_0_r in Hr. fold (find 123 text) in Hr. rewrite Hr.
  match goal with |- context [firstn ?n _] => destruct n end; simpl; eauto.
Qed.

(** Whatever the text, the interpreter returns a dictionary: the decoded
    object or the error dictionary. *)
Lemma parse_json_response_dict (text : str) (v : value) :
  parse_json_response text = Return v -> is_dict v.
Proof.
  unfold parse_json_response, try_pure.
  destruct (in_dec N.eq_dec 123%N text) as [Hin|Hnot].
  - rewrite body_with_brace by assumption.
    destruct (json_text_shape text Hin) as [->|[r ->]].
    + rewrite loads_empty. intros H; inversion H. eexists; reflexivity.
    + destruct (loads (123%N :: r)) as [x|e] eqn:Hl.
      * intros H; inversion H; subst. eapply loads_object; eassumption.
      * intros H; inversion H. eexists; reflexivity.
  - rewrite body_without_brace by assumption.
    intros H; inversion H. eexists; reflexivity.
Qed.

End ResultShape.

(* ===================================================================== *)
(** * Further facts *)
(* ===================================================================== *)

(** ** More on the navigation resolver *)

Section NavMore.
Import Nav Script.

Lemma startswith_stable (q p r : str) :
  startswith q p = true -> startswith q (p ++ r) = true.
Proof.
  revert p; induction q as [|c q IH]; intros p H; [reflexivity|].
  destruct p as [|d p]; [discriminate|]. simpl in *.
  apply andb_prop in H as [Hc Hq]. rewrite Hc. simpl. now apply IH.
Qed.

Lemma is_external_stable (p r : str) :
  is_external p = true -> is_external (p ++ r) = true.
Proof.
  unfold is_external. intros H. apply orb_prop in H as [H|H];
    apply startswith_stable with (r := r) in H; rewrite H;
    [reflexivity | apply orb_true_r].
Qed.

Lemma strip_fragment_keeps_kind (s : str) :
  is_external s = false -> is_external (strip_fragment s) = false.
Proof.
  intros Hs. destruct (strip_fragment_prefix s) as [_ [rest Hrest]].
  destruct (is_external (strip_fragment s)) eqn:H; [|reflexivity].
  apply is_external_stable with (r := rest) in H. congruence.
Qed.

(** X1: whatever the navigation, no reference the resolver returns is an
    HTTP or HTTPS link, and none holds a [#]. *)
Theorem resolved_references_are_clean (nav : value) (r : str) :
  In r (extract_files nav) -> is_external r = false /\ ~ In 35%N r.
Proof.
  revert r.
  induction nav as [| b | z | t | s | l IH | items IH] using value_ind_nested;
    try (intros r []).
  - rewrite extract_files_list.
    induction IH as [|x l Hx _ IHl]; simpl; [intros r []|].
    intros r Hin. apply in_app_or in Hin as [Hin|Hin]; auto.
  - induction IH as [|[k v] rest Hv _ IHrest]; [intros r []|].
    rewrite extract_files_item. simpl in Hv.
    destruct v; try exact IHrest.
    + destruct (is_external s) eqn:Hs; [intros r []|].
      intros r [<-|Hin]; [|auto].
      split; [now apply strip_fragment_keeps_kind|].
      apply (strip_fragment_prefix s).
    + intros r Hin. apply in_app_or in Hin as [Hin|Hin]; auto.
Qed.

Lemma resolved_references_are_clean_witness :
  In (lit "setup.md") (extract_files scenario_nav)
  /\ is_external (lit "setup.md") = false /\ ~ In 35%N (lit "setup.md").
Proof.
  assert (Hin : In (lit "setup.md") (extract_files scenario_nav))
    by (vm_compute; auto).
  split; [exact Hin|].
  exact (@resolved_references_are_clean scenario_nav (lit "setup.md") Hin).
Defined.

(** X2: on a flat navigation, one single-item mapping per page, the
    resolver returns the values that are no external link, each cut at
    its first [#], in the order of the navigation. *)
Theorem flat_navigation_resolves_in_order (entries : list (str * str)) :
  extract_files (VList (map page entries))
  = map strip_fragment (filter keep_page (map snd entries)).
Proof.
  rewrite extract_files_list.
  induction entries as [|[k v] entries IH]; [reflexivity|].
  cbn [map flat_map snd filter]. rewrite IH.
  unfold page at 1, keep_page at 2. cbn [fst snd].
  rewrite extract_files_item. cbn [negb].
  destruct (is_external v); reflexivity.
Qed.

(** X3: a labelled section is flattened in place: its children come
    after what precedes the section and before what follows it. *)
Theorem section_is_flattened_in_place
    (before children after : list value) (label : str) :
  extract_files (VList (before ++ VDict [(label, VList children)] :: after))
  = extract_files (VList before) ++ extract_files (VList children)
      ++ extract_files (VList after).
Proof.
  rewrite !extract_files_list, flat_map_app. cbn [flat_map].
  rewrite extract_files_item, extract_files_list.
  change (extract_files (VDict [])) with (@nil str).
  now rewrite app_nil_r.
Qed.

End NavMore.

Section NavMore2.
Import Nav Script.

(** X4: entries of the navigation that carry no label are not visited:
    a navigation written as a plain list of paths resolves to nothing. *)
Theorem unlabelled_paths_are_ignored (paths : list str) :
  extract_files (VList (map VStr paths)) = [].
Proof.
  rewrite extract_files_list.
  induction paths as [|p paths IH]; [reflexivity | exact IH].
Qed.

End NavMore2.

(** ** Errors of the configuration *)

Section ConfigErrors.
Variable E : env.
Variable G : Repos.git_env.


End ConfigErrors.


(** ** More on the content locator *)

Section LocatorMore.
Variables (ref config_path clone_dir : str).
Variables (config : value) (docs_root : str).

(** X6: a reference that starts with [/] is looked up as it stands: the
    three candidates are the reference itself, whatever the roots. *)
Theorem absolute_reference_bypasses_roots (E : env) :
  yaml_load E config_path = Return config ->
  Config.get config (lit "docs_dir") (VStr (lit "docs")) = Return (VStr docs_root) ->
  startswith [47%N] ref = true ->
  Locator.read_file_content E ref config_path clone_dir
  = if path_exists E ref then read_text E ref else Raise (Locator.not_found ref).
Proof.
  intros Hload Hdocs Habs. unfold Locator.read_file_content.
  rewrite Hload. simpl. rewrite Hdocs. simpl.
  assert (Hjoin : forall d, PosixPath.join d ref = ref).
  { intros d. unfold PosixPath.join, PosixPath.sep. now rewrite Habs. }
  unfold PosixPath.join3. rewrite !Hjoin.
  destruct (path_exists E ref); reflexivity.
Qed.

(** X7: the locator looks at the file system only through its three
    candidates: two file systems that load the same configuration and
    agree on these three paths give the same result. *)
Theorem locator_reads_only_its_candidates (E1 E2 : env) :
  yaml_load E1 config_path = Return config ->
  yaml_load E2 config_path = Return config ->
  Config.get config (lit "docs_dir") (VStr (lit "docs")) = Return (VStr docs_root) ->
  (forall p,
      In p [ PosixPath.join3 (PosixPath.dirname config_path) docs_root ref;
             PosixPath.join (PosixPath.dirname config_path) ref;
             PosixPath.join clone_dir ref ] ->
      path_exists E1 p = path_exists E2 p /\ read_text E1 p = read_text E2 p) ->
  Locator.read_file_content E1 ref config_path clone_dir
  = Locator.read_file_content E2 ref config_path clone_dir.
Proof.
  intros H1 H2 Hdocs Hagree. unfold Locator.read_file_content.
  rewrite H1, H2. simpl. rewrite Hdocs. simpl.
  destruct (Hagree _ (or_introl eq_refl)) as [-> ->].
  destruct (Hagree _ (or_intror (or_introl eq_refl))) as [-> ->].
  destruct (Hagree _ (or_intror (or_intror (or_introl eq_refl)))) as [-> ->].
  reflexivity.
Qed.

End LocatorMore.

(** ** More on truncation and the prompt *)

Section TruncateMore.
Import Dispatcher Coordinator.

(** X8: truncating again with the same or a larger budget changes
    nothing, for a budget that is not negative. *)
Theorem truncate_is_stable (content : str) (n m : Z) :
  (0 <= n <= m)%Z ->
  truncate_content (truncate_content content n) m = truncate_content content n.
Proof.
  intros Hnm. unfold truncate_content at 1.
  destruct (Z.gtb_spec (len (truncate_content content n)) m) as [Hgt|Hle];
    [|reflexivity].
  exfalso. unfold truncate_content in Hgt.
  destruct (Z.gtb_spec (len content) n) as [Hc|Hc]; [|lia].
  rewrite slice_prefix in Hgt by lia.
  unfold len in *. rewrite length_firstn in Hgt. lia.
Qed.

Lemma truncate_is_stable_witness :
  truncate_content (truncate_content (lit "abcdef") 4) 5 = lit "abcd".
Proof.
  rewrite (@truncate_is_stable (lit "abcdef") 4 5) by lia. reflexivity.
Defined.

(** X9: a negative budget [-k] removes the last [k] characters, and
    everything when the content has at most [k]. *)
Theorem truncate_negative_drops_tail (content : str) (n : Z) :
  (n < 0)%Z ->
  truncate_content content n = firstn (Z.to_nat (len content + n)) content.
Proof.
  intros Hn. unfold truncate_content.
  destruct (Z.gtb_spec (len content) n) as [_|Hle]; [|unfold len in Hle; lia].
  unfold slice, clamp. destruct (Z.ltb_spec n 0) as [_|]; [|lia].
  rewrite Z.sub_0_r. simpl skipn.
  destruct (Z.max_spec 0 (n + len content)) as [[Hlt ->]|[Hge ->]].
  - now rewrite Z.add_comm.
  - simpl. replace (Z.to_nat (len content + n)) with O by lia. reflexivity.
Qed.

Lemma truncate_negative_drops_tail_witness :
  truncate_content (lit "abcdef") (-2) = lit "abcd"
  /\ truncate_content (lit "abc") (-7) = [].
Proof.
  split.
  - rewrite (@truncate_negative_drops_tail (lit "abcdef") (-2)) by lia. reflexivity.
  - rewrite (@truncate_negative_drops_tail (lit "abc") (-7)) by lia. reflexivity.
Defined.

(** X10: with a budget that is not negative, the prompt built from the
    truncated content is the fixed text around at most [max_chars]
    characters: its length is at most [max_chars] plus the 794 characters
    of the template. *)
Theorem prompt_size_is_bounded (content : str) (n : Z) :
  (0 <= n)%Z ->
  (len (format_prompt (truncate_content content n)) <= n + 794)%Z
  /\ exists kept dropped,
       content = kept ++ dropped
       /\ format_prompt (truncate_content content n) = prompt_head ++ kept ++ prompt_tail.
Proof.
  intros Hn.
  assert (Hlen : (len (truncate_content content n) <= n)%Z
                 /\ exists dropped, content = truncate_content content n ++ dropped).
  { unfold truncate_content.
    destruct (Z.gtb_spec (len content) n) as [Hgt|Hle].
    - rewrite slice_prefix by lia. split.
      + unfold len in *. rewrite length_firstn. lia.
      + exists (skipn (Z.to_nat n) content). now rewrite firstn_skipn.
    - split; [lia|]. exists []. now rewrite app_nil_r. }
  destruct Hlen as [Hle [dropped Hsplit]]. split.
  - unfold format_prompt, len in *. rewrite !length_app.
    change (List.length prompt_head) with 748.
    change (List.length prompt_tail) with 46. lia.
  - exists (truncate_content content n), dropped. split; [exact Hsplit|reflexivity].
Qed.

End TruncateMore.

(** ** More on the dispatcher *)

Section DispatcherMore.
Import Dispatcher.
Variable E : env.
Variables (prompt model : str).

Lemma openai_loop_effects (remaining : nat) :
  forall w,
    exists added,
      slept (snd (openai_loop E remaining prompt model w)) = slept w ++ added
      /\ requests w <= requests (snd (openai_loop E remaining prompt model w))
      /\ List.length added
         <= requests (snd (openai_loop E remaining prompt model w)) - requests w
      /\ Forall (fun d => is_pacing d = false) added.
Proof.
  assert (Hnone : forall w n, n = requests w \/ n = S (requests w) ->
            exists added,
              slept w = slept w ++ added /\ requests w <= n
              /\ List.length added <= n - requests w
              /\ Forall (fun d => is_pacing d = false) added).
  { intros w n Hn. exists []. rewrite app_nil_r. cbn [List.length].
    repeat split; try lia. constructor. }
  induction remaining as [|k IH]; intros w.
  - cbn [openai_loop]. unfold ret. cbn [snd]. apply Hnone. now left.
  - rewrite openai_loop_step.
    unfold openai_round, try_except, bind, openai_request, ret, lift, sleep.
    destruct (openai_chat E (requests w) model prompt) as [raw|e];
      cbn [snd requests slept]; [apply Hnone; now right|].
    destruct (contains _ _); cbn [snd requests slept]; [|apply Hnone; now right].
    destruct (wait_time_of (exn_msg e)) as [d|e'] eqn:Hwait;
      cbn [snd requests slept]; [|apply Hnone; now right].
    destruct (IH (World (S (requests w)) (slept w ++ [d])))
      as (added & Hs & Hr & Hl & Hp). cbn [requests slept] in *.
    exists (d :: added). rewrite Hs, <- app_assoc. cbn [List.length app].
    repeat split; try lia.
    constructor; [exact (wait_time_is_no_pacing _ Hwait) | exact Hp].
Qed.

Lemma openai_round_sends_one (w : world) :
  requests (snd (openai_round E prompt model w)) = S (requests w).
Proof.
  unfold openai_round, try_except, bind, openai_request, ret, lift, sleep.
  destruct (openai_chat E (requests w) model prompt) as [raw|e]; [reflexivity|].
  destruct (contains _ _); [|reflexivity].
  destruct (wait_time_of (exn_msg e)); reflexivity.
Qed.

(** X11: whatever the provider answers, a call of [send_to_openai]
    sends at least one and at most five requests, only adds pauses to the
    ones already taken, and takes at most one pause per request sent. *)
Theorem send_to_openai_is_bounded (w : world) :
  requests w < requests (snd (send_to_openai E prompt model w))
  /\ requests (snd (send_to_openai E prompt model w)) <= requests w + 5
  /\ exists added,
       slept (snd (send_to_openai E prompt model w)) = slept w ++ added
       /\ List.length added
          <= requests (snd (send_to_openai E prompt model w)) - requests w.
Proof.
  pose proof (openai_loop_bounded E prompt model 5 w) as Hup.
  destruct (openai_loop_effects 5 w) as (added & Hs & _ & Hl & _).
  fold (send_to_openai E prompt model w) in Hup, Hs, Hl.
  split; [|split; [exact Hup | exists added; split; assumption]].
  unfold send_to_openai, max_retries. rewrite openai_loop_step.
  pose proof (openai_round_sends_one w) as Hone.
  destruct (openai_round E prompt model w) as [[[raw|]|e] w1];
    cbn [snd] in *; try lia.
  destruct (openai_loop_effects 4 w1) as (_ & _ & Hr & _). lia.
Qed.




End DispatcherMore.

(** ** Reading the wait of a rate limit *)

Section WaitFacts.
Import Dispatcher Script.

Lemma search_wait_unfold (s : str) :
  search_wait s =
    match match_wait_here s with
    | Some g => Some g
    | None => match s with [] => None | _ :: rest => search_wait rest end
    end.
Proof. destruct s; reflexivity. Qed.

Lemma search_wait_absent (s : str) : contains try_again s = false -> search_wait s = None.
Proof.
  induction s as [|c s IH]; intros H.
  - reflexivity.
  - cbn [contains] in H. apply orb_false_elim in H as [Hhere Hrest].
    cbn [search_wait]. unfold match_wait_here. fold try_again.
    rewrite Hhere. now apply IH.
Qed.

Lemma hint_starts_with_capital (c : N) (s : str) :
  c <> 80%N -> startswith try_again (c :: s) = false.
Proof.
  intros Hc. change try_again with (80%N :: lit "lease try again in ").
  cbn [startswith]. apply N.eqb_neq in Hc. rewrite N.eqb_sym in Hc.
  now rewrite Hc.
Qed.


Lemma span_wait_run (g rest : str) :
  forallb in_wait_class g = true ->
  match rest with [] => true | c :: _ => negb (in_wait_class c) end = true ->
  span_wait (g ++ rest) = (g, rest).
Proof.
  intros Hg Hrest. induction g as [|c g IH]; simpl in *.
  - destruct rest as [|c rest]; [reflexivity|]. simpl.
    apply negb_true_iff in Hrest. now rewrite Hrest.
  - apply andb_prop in Hg as [Hc Hg]. rewrite Hc, (IH Hg). reflexivity.
Qed.

Lemma match_wait_here_at (g rest : str) :
  forallb in_wait_class g = true ->
  match rest with [] => true | c :: _ => negb (in_wait_class c) end = true ->
  match_wait_here (try_again ++ g ++ rest)
  = match g, rest with
    | _ :: _, c :: _ => if N.eqb c 115 then Some g else None
    | _, _ => None
    end.
Proof.
  intros Hg Hrest. unfold match_wait_here. fold try_again.
  rewrite startswith_app.
  replace (skipn (List.length try_again) (try_again ++ g ++ rest)) with (g ++ rest)
    by (now rewrite skipn_app, skipn_all, Nat.sub_diag).
  rewrite (span_wait_run g rest Hg Hrest).
  destruct g, rest; reflexivity.
Qed.

Lemma search_wait_skips (before s : str) :
  ~ In 80%N before -> search_wait (before ++ s) = search_wait s.
Proof.
  induction before as [|c before IH]; intros H; [reflexivity|].
  cbn [app search_wait]. unfold match_wait_here. fold try_again.
  rewrite hint_starts_with_capital by (intros ->; apply H; now left).
  apply IH. intros Hin. apply H. now right.
Qed.

(** X15: when the error text does not hold [Please try again in ], the
    wait is the default of two seconds. *)
Theorem wait_defaults_without_hint (error_str : str) :
  contains (lit "Please try again in ") error_str = false ->
  wait_time_of error_str = Return (Seconds 2).
Proof.
  intros H. unfold wait_time_of.
  now rewrite (search_wait_absent error_str H).
Qed.

(** X16: when the first [P] of the error text starts
    [Please try again in ] followed by a run of digits and dots and then
    [s], the wait is that run read as a number: the run itself when it
    holds a digit and at most one dot. *)
Theorem wait_is_read_in_seconds (before g after : str) :
  ~ In 80%N before ->
  g <> [] ->
  forallb in_wait_class g = true ->
  wait_time_of (before ++ lit "Please try again in " ++ g ++ 115%N :: after)
  = float_of g
  /\ (existsb Json.is_digit g = true -> count_occ N.eq_dec g 46%N <= 1 ->
      wait_time_of (before ++ lit "Please try again in " ++ g ++ 115%N :: after)
      = Return (FloatSeconds g)).
Proof.
  intros Hbefore Hne Hg.
  assert (Hw : wait_time_of (before ++ lit "Please try again in " ++ g ++ 115%N :: after)
               = float_of g).
  { unfold wait_time_of. rewrite search_wait_skips by assumption.
    rewrite search_wait_unfold. fold try_again.
    rewrite (@match_wait_here_at g (115%N :: after) Hg eq_refl).
    destruct g; [congruence | reflexivity]. }
  split; [exact Hw|].
  intros Hdigit Hdots. rewrite Hw. unfold float_of.
  rewrite Hdigit. apply Nat.leb_le in Hdots. now rewrite Hdots.
Qed.


End WaitFacts.

(** ** More on the response interpreter *)

Section InterpreterMore.
Import Interpreter.

(** X19: whatever the text, the interpreter returns a dictionary: the
    decoded object or the error dictionary, never a list, a number, a
    string or [None]. *)
Theorem interpreter_returns_a_dictionary (text : str) :
  exists items, parse_json_response text = Return (VDict items).
Proof.
  destruct (parse_json_response_returns text) as [v Hv].
  destruct (parse_json_response_dict text Hv) as [items ->].
  now exists items.
Qed.

Lemma find_from_first (c : N) (p r : str) (i : Z) :
  ~ In c p -> find_from c (p ++ c :: r) i = (i + len p)%Z.
Proof.
  unfold len. revert i; induction p as [|d p IH]; intros i Hnot; simpl.
  - rewrite N.eqb_refl. lia.
  - destruct (N.eqb_spec d c) as [->|Hne]; [exfalso; apply Hnot; now left|].
    rewrite IH by (intros Hin; apply Hnot; now right). lia.
Qed.

Lemma rfind_from_last (c : N) (p r : str) (i last : Z) :
  ~ In c r -> rfind_from c (p ++ c :: r) i last = (i + len p)%Z.
Proof.
  unfold len. revert i last; induction p as [|d p IH]; intros i last Hnot; simpl.
  - rewrite N.eqb_refl, rfind_from_absent by assumption. lia.
  - rewrite IH by assumption. lia.
Qed.

Lemma slice_middle (a m b : str) :
  slice (a ++ m ++ b) (Some (len a)) (Some (len a + len m)%Z) = m.
Proof.
  unfold slice, clamp, len. rewrite !length_app.
  destruct (Z.ltb_spec (Z.of_nat (List.length a)) 0); [lia|].
  destruct (Z.ltb_spec (Z.of_nat (List.length a) + Z.of_nat (List.length m)) 0); [lia|].
  rewrite !Z.min_l by lia.
  replace (Z.to_nat (Z.of_nat (List.length a) + Z.of_nat (List.length m)
                     - Z.of_nat (List.length a))) with (List.length m) by lia.
  rewrite Nat2Z.id, skipn_app, skipn_all, Nat.sub_diag. simpl.
  now rewrite firstn_app, firstn_all, Nat.sub_diag, firstn_O, app_nil_r.
Qed.

(** X20: text around the object is tolerated: for an object text that
    runs from an opening to a closing brace, put after a text without
    opening brace and before a text without closing brace, the interpreter
    hands exactly the object text to the decoder, returns what it decodes
    to, and returns the error dictionary with the whole text when it does
    not decode. *)
Theorem wrapper_text_is_tolerated (before inside after : str) :
  ~ In 123%N before ->
  ~ In 125%N after ->
  let object := 123%N :: inside ++ [125%N] in
  let text := before ++ object ++ after in
  json_text text = object
  /\ parse_json_response text
     = match Json.loads object with
       | Return v => Return v
       | Raise e => Return (error_dict e text)
       end.
Proof.
  intros Hbefore Hafter object text.
  assert (Hin : In 123%N text).
  { unfold text, object. rewrite in_app_iff. right. now left. }
  assert (Hfind : find 123 text = len before).
  { unfold find, text, object. cbn [app].
    now rewrite find_from_first by assumption. }
  assert (Hrfind : (rfind 125 text + 1)%Z = (len before + len object)%Z).
  { unfold rfind, text, object.
    replace (before ++ (123%N :: inside ++ [125%N]) ++ after)
      with ((before ++ 123%N :: inside) ++ 125%N :: after)
      by (cbn [app]; now rewrite <- !app_assoc).
    rewrite rfind_from_last by assumption.
    unfold len. rewrite !length_app. cbn [List.length]. rewrite length_app.
    cbn [List.length]. lia. }
  assert (Htext : json_text text = object).
  { unfold json_text. rewrite Hfind, Hrfind. apply slice_middle. }
  split; [exact Htext|].
  unfold parse_json_response, try_pure.
  rewrite body_with_brace, Htext by assumption.
  destruct (Json.loads object); reflexivity.
Qed.

Lemma slice_backwards (s : str) (a b : Z) :
  (0 <= b <= a)%Z -> slice s (Some a) (Some b) = [].
Proof.
  intros H. unfold slice, clamp.
  destruct (Z.ltb_spec a 0); [lia|]. destruct (Z.ltb_spec b 0); [lia|].
  replace (Z.to_nat (Z.min b (len s) - Z.min a (len s))) with O by lia.
  reflexivity.
Qed.

(** X21: when the last closing brace comes before the first opening
    brace, or there is none, nothing is handed to the decoder and the
    interpreter returns the error dictionary with the text. *)
Theorem braces_in_wrong_order_fail (text : str) :
  In 123%N text ->
  (rfind 125 text < find 123 text)%Z ->
  json_text text = []
  /\ parse_json_response text
     = Return (error_dict (Json.decode_error "Expecting value" [] 0) text).
Proof.
  intros Hin Horder.
  assert (Htext : json_text text = []).
  { unfold json_text. apply slice_backwards.
    pose proof (@rfind_from_lower 125 text 0 (-1))%Z as Hlow.
    fold (rfind 125 text) in Hlow. lia. }
  split; [exact Htext|].
  unfold parse_json_response, try_pure.
  now rewrite body_with_brace, Htext by assumption.
Qed.

End InterpreterMore.

(** ** More on the coordinator *)

Section CoordinatorMore.
Import Dispatcher Coordinator Script.
Variable E : env.
Variable a : args.





Lemma send_request_bounded (prompt : str) (p : provider) (model host : str)
    (w : world) :
  requests (snd (send_request E prompt p model host w))
  <= requests w + match p with OpenAI => 5 | Ollama => 1 end.
Proof.
  destruct p; simpl.
  - apply openai_loop_bounded.
  - unfold send_to_ollama, try_except, ollama_request, ret.
    destruct (ollama_chat E _ _ _ _); simpl; lia.
Qed.

Lemma process_file_bounded (file : str) (w : world) :
  requests (snd (process_file E a file w))
  <= requests w + match arg_provider a with OpenAI => 5 | Ollama => 1 end.
Proof.
  unfold process_file, process_body, try_except, bind, lift, ret.
  destruct (Locator.read_file_content E file (config_path a) (clone_dir a))
    as [content|e]; [|simpl; lia].
  pose proof (send_request_bounded
                (format_prompt (truncate_content content (max_chars a)))
                (arg_provider a) (arg_model a) (ollama_host a) w) as Hb.
  destruct (send_request E _ _ _ _ w) as [[raw|e] w1]; cbn [snd] in *; [|exact Hb].
  destruct raw as [[|c raw]|]; cbn [snd]; try exact Hb.
  destruct (Interpreter.parse_json_response (c :: raw)); exact Hb.
Qed.

(** X23: a run sends at most five requests per item of the navigation
    list to the hosted provider, and at most one per item to the local
    one. *)
Theorem run_sends_bounded_requests (nav_files : list str) :
  forall (results : list (str * value)) (w : world),
    requests (snd (main_loop E a nav_files results w))
    <= requests w
       + match arg_provider a with OpenAI => 5 | Ollama => 1 end
         * List.length nav_files.
Proof.
  induction nav_files as [|file rest IH]; intros results w.
  - simpl. lia.
  - cbn [main_loop]. unfold bind.
    pose proof (process_file_bounded file w) as Hfile.
    destruct (process_file_returns E a file w) as (v & w1 & Hrun & _).
    rewrite Hrun in *. cbn [snd] in Hfile. unfold sleep at 1.
    specialize (IH (dict_set file v results)
                   (World (requests w1) (slept w1 ++ [Seconds 1]))).
    cbn [requests] in IH. cbn [List.length]. lia.
Qed.


End CoordinatorMore.

(** ** Repository materializer *)

Section ReposFacts.
Import Repos.
Variable G : git_env.
Variable target_dir : str.

Lemma log_ok_nil : log_ok G target_dir [].
Proof. intros before argv after H. destruct before; discriminate. Qed.

Lemma log_ok_snoc (log : list (list str)) (argv : list str) :
  log_ok G target_dir log -> command_ok G target_dir log argv ->
  log_ok G target_dir (log ++ [argv]).
Proof.
  intros Hlog Hcmd before argv' after Heq.
  destruct after as [|x after0].
  - apply app_inj_tail in Heq as [-> ->]. exact Hcmd.
  - destruct (exists_last (l := x :: after0)) as (init & lst & Hsplit);
      [discriminate|].
    rewrite Hsplit in Heq.
    replace (before ++ argv' :: init ++ [lst])
      with ((before ++ argv' :: init) ++ [lst]) in Heq
      by (now rewrite <- app_assoc).
    apply app_inj_tail in Heq as [Hl _].
    now apply (Hlog before argv' init).
Qed.

Lemma run_checked_log (argv : list str) (log : list (list str)) :
  snd (run_checked G argv log) = log ++ [argv].
Proof.
  unfold run_checked. destruct (run G log argv) as [[]|e]; [reflexivity|].
  destruct (is_called_process_error e); reflexivity.
Qed.

(** What one entry adds to the log: nothing, or one command that is in
    order. *)
Lemma clone_one_log (repo : value) (log : list (list str)) :
  snd (clone_one G target_dir repo log) = log
  \/ exists argv,
       snd (clone_one G target_dir repo log) = log ++ [argv]
       /\ command_ok G target_dir log argv.
Proof.
  unfold clone_one.
  destruct (Config.get repo (lit "name") VNone) as [name|e]; [|now left].
  destruct (Config.get repo (lit "import_url") VNone) as [url|e]; [|now left].
  destruct (negb (truthy name) || negb (truthy url)); [now left|].
  destruct (Locator.as_path name) as [name'|e]; [|now left].
  destruct (dir_exists G log (PosixPath.join target_dir name')) eqn:Hdir.
  - right. eexists. split; [apply run_checked_log|].
    left. exists name'. split; [reflexivity | exact Hdir].
  - destruct url; simpl; try now left.
    right. eexists. split; [apply run_checked_log|].
    right. exists name', (hd [] (split_on 63 s)).
    split; [reflexivity|]. split; [apply split_on_head_clean | exact Hdir].
Qed.

Lemma clone_loop_log_ok (repos : list value) :
  forall log, log_ok G target_dir log ->
    log_ok G target_dir (snd (clone_loop G target_dir repos log)).
Proof.
  induction repos as [|repo rest IH]; intros log Hlog; [exact Hlog|].
  cbn [clone_loop].
  destruct (clone_one_log repo log) as [Hsame|(argv & Hadd & Hcmd)];
    destruct (clone_one G target_dir repo log) as [[[]|e] log'];
    cbn [snd] in *; subst log'; try apply IH; try assumption;
    now apply log_ok_snoc.
Qed.

(** X25: every command [clone_multi_repos] runs is [git -C d pull] for a
    directory [d] under the target directory that existed when it ran, or
    [git clone u d] for a directory that did not, with a URL [u] that
    holds no [?]. *)
Theorem only_pulls_and_clones_are_run (E : env) (mkdocs_config_path : str) :
  log_ok G target_dir (snd (clone_multi_repos E G mkdocs_config_path target_dir)).
Proof.
  unfold clone_multi_repos.
  destruct (negb (path_exists E mkdocs_config_path)); [apply log_ok_nil|].
  destruct (yaml_load E mkdocs_config_path) as [config|e]; [|apply log_ok_nil].
  destruct (result_bind _ _) as [plugins|e]; [|apply log_ok_nil].
  destruct (negb (truthy (find_multirepo plugins))); [apply log_ok_nil|].
  destruct (Config.get _ _ _) as [nav_repos|e]; [|apply log_ok_nil].
  destruct (negb (truthy nav_repos)); [apply log_ok_nil|].
  destruct (makedirs G target_dir) as [[]|e]; [|apply log_ok_nil].
  destruct (iter_value nav_repos) as [repos|e]; [|apply log_ok_nil].
  apply clone_loop_log_ok, log_ok_nil.
Qed.






End ReposFacts.

Section PluginFacts.
Import Repos.

Lemma find_multirepo_first (before after : list value)
    (items : list (str * value)) (config : value) :
  (forall d, In (VDict d) before -> dict_get (lit "multirepo") d = None) ->
  dict_get (lit "multirepo") items = Some config ->
  find_multirepo (before ++ VDict items :: after) = config.
Proof.
  intros Hbefore Hitems. induction before as [|x before IH]; cbn [app find_multirepo].
  - now rewrite Hitems.
  - assert (IH' : find_multirepo (before ++ VDict items :: after) = config)
      by (apply IH; intros d Hd; apply Hbefore; now right).
    destruct x; try exact IH'.
    rewrite (Hbefore items0 (or_introl eq_refl)). exact IH'.
Qed.

(** X28: the first entry of [plugins] that is a mapping with the key
    [multirepo] decides: when its value is empty, no directory is made and
    no command is run, whatever the entries after it hold; and so it is
    when the configuration has no [plugins]. *)
Theorem first_multirepo_entry_decides
    (E : env) (G : git_env) (path target_dir : str)
    (config : list (str * value)) :
  path_exists E path = true ->
  yaml_load E path = Return (VDict config) ->
  (dict_get (lit "plugins") config = None ->
   clone_multi_repos E G path target_dir = (Return tt, []))
  /\ (forall before items after multirepo,
        dict_get (lit "plugins") config
        = Some (VList (before ++ VDict items :: after)) ->
        (forall d, In (VDict d) before -> dict_get (lit "multirepo") d = None) ->
        dict_get (lit "multirepo") items = Some multirepo ->
        truthy multirepo = false ->
        clone_multi_repos E G path target_dir = (Return tt, [])).
Proof.
  intros Hexists Hload. unfold clone_multi_repos. rewrite Hexists, Hload.
  cbn [negb Config.get result_bind]. split.
  - intros ->. reflexivity.
  - intros before items after multirepo -> Hbefore Hitems Hempty.
    cbn [iter_value].
    rewrite (find_multirepo_first before after items Hbefore Hitems).
    now rewrite Hempty.
Qed.

End PluginFacts.

(** ** Runs as a whole *)

Section RunFacts.
Import Dispatcher Coordinator Script.
Variable E : env.
Variable a : args.

(** X12: when the navigation resolves to no reference, as for a plain
    list of paths or a list of external links, [main] ends with no report
    and without sending a request or taking a pause. *)
Theorem run_stops_without_references (config nav : value) (w : world) :
  path_exists E (config_path a) = true ->
  yaml_load E (config_path a) = Return config ->
  Config.get config (lit "nav") (VList []) = Return nav ->
  Nav.extract_files nav = [] ->
  main E a w = (Return None, w).
Proof.
  intros Hexists Hload Hnav Hnone.
  unfold main, try_except, bind, lift, ret, Config.load_mkdocs_nav.
  rewrite Hexists, Hload. simpl. rewrite Hnav. simpl. now rewrite Hnone.
Qed.



End RunFacts.

(** ** The added facts on the sample worlds *)

Section Witnesses.
Import Dispatcher Coordinator Script Repos Interpreter.

Lemma absolute_reference_bypasses_roots_witness :
  Locator.read_file_content absolute_site (lit "/etc/hostname")
    (lit "/site/mkdocs.yml") (lit "/opt/classifier/tmp")
  = Return (lit "box").
Proof.
  rewrite (@absolute_reference_bypasses_roots (lit "/etc/hostname")
             (lit "/site/mkdocs.yml") (lit "/opt/classifier/tmp")
             (VDict []) (lit "docs") absolute_site eq_refl eq_refl eq_refl).
  reflexivity.
Defined.

Lemma locator_reads_only_its_candidates_witness :
  Locator.read_file_content two_copies (lit "a.md") (lit "/site/mkdocs.yml")
    (lit "/opt/classifier/tmp")
  = Locator.read_file_content two_copies_and_more (lit "a.md")
      (lit "/site/mkdocs.yml") (lit "/opt/classifier/tmp").
Proof.
  apply (@locator_reads_only_its_candidates (lit "a.md") (lit "/site/mkdocs.yml")
           (lit "/opt/classifier/tmp") (VDict []) (lit "docs")
           two_copies two_copies_and_more eq_refl eq_refl eq_refl).
  intros p [<-|[<-|[<-|[]]]]; split; reflexivity.
Defined.

Lemma prompt_size_is_bounded_witness :
  (len (format_prompt (truncate_content (lit "abcdef") 4)) <= 4 + 794)%Z.
Proof.
  apply (@prompt_size_is_bounded (lit "abcdef") 4). lia.
Defined.

Lemma run_stops_without_references_witness :
  main plain_list_site sample_args (World 0 []) = (Return None, World 0 []).
Proof.
  apply (@run_stops_without_references plain_list_site sample_args
           (VDict [(lit "nav", VList [VStr (lit "index.md"); VStr (lit "setup.md")])])
           (VList [VStr (lit "index.md"); VStr (lit "setup.md")])
           (World 0 []) eq_refl eq_refl eq_refl eq_refl).
Defined.



Lemma wait_defaults_without_hint_witness :
  wait_time_of (lit "Rate limit reached for gpt-4o.") = Return (Seconds 2).
Proof. apply wait_defaults_without_hint. reflexivity. Defined.

Lemma wait_is_read_in_seconds_witness :
  wait_time_of (exn_msg (rate_limit "1.5")) = Return (FloatSeconds (lit "1.5")).
Proof.
  apply (@wait_is_read_in_seconds (lit "Rate limit reached for gpt-4o. ") (lit "1.5")
           (lit ". Visit the dashboard.")).
  - vm_compute. intuition discriminate.
  - discriminate.
  - reflexivity.
  - reflexivity.
  - vm_compute. lia.
Defined.


Lemma wrapper_text_is_tolerated_witness :
  parse_json_response (lit "Here you go: {} Anything else?") = Return (VDict []).
Proof.
  destruct (@wrapper_text_is_tolerated (lit "Here you go: ") [] (lit " Anything else?"))
    as [_ H].
  - vm_compute. intuition discriminate.
  - vm_compute. intuition discriminate.
  - exact H.
Defined.

Lemma braces_in_wrong_order_fail_witness :
  parse_json_response (lit "} and then {")
  = Return (error_dict (Json.decode_error "Expecting value" [] 0) (lit "} and then {")).
Proof.
  apply (@braces_in_wrong_order_fail (lit "} and then {")).
  - vm_compute. auto 20.
  - vm_compute. reflexivity.
Defined.




Lemma only_pulls_and_clones_are_run_witness :
  command_ok working_git (lit "/opt/classifier/tmp")
    [clone_command (lit "https://example.com/a.git") (lit "/opt/classifier/tmp/docs-a")]
    (pull_command (lit "/opt/classifier/tmp/docs-a")).
Proof.
  apply (@only_pulls_and_clones_are_run working_git (lit "/opt/classifier/tmp")
           (site_with_plugins [VStr (lit "search"); multirepo [repo_a; repo_a_again]])
           (lit "/site/mkdocs.yml")
           [clone_command (lit "https://example.com/a.git") (lit "/opt/classifier/tmp/docs-a")]
           (pull_command (lit "/opt/classifier/tmp/docs-a")) []).
  vm_compute. reflexivity.
Defined.



Lemma first_multirepo_entry_decides_witness :
  clone_multi_repos
    (site_with_plugins [VStr (lit "search"); VDict [(lit "multirepo", VNone)];
                        multirepo [repo_a]])
    working_git (lit "/site/mkdocs.yml") (lit "/opt/classifier/tmp")
  = (Return tt, []).
Proof.
  destruct (@first_multirepo_entry_decides
              (site_with_plugins [VStr (lit "search"); VDict [(lit "multirepo", VNone)];
                                  multirepo [repo_a]])
              working_git (lit "/site/mkdocs.yml") (lit "/opt/classifier/tmp")
              [(lit "plugins",
                VList [VStr (lit "search"); VDict [(lit "multirepo", VNone)];
                       multirepo [repo_a]])]
              eq_refl eq_refl) as [_ H].
  apply (H [VStr (lit "search")] [(lit "multirepo", VNone)] [multirepo [repo_a]] VNone);
    try reflexivity.
  intros d [Hd|[]]. discriminate.
Defined.


End Witnesses.
